(** * Cloudflare KV Explorer: the local KV data resolution layer

    A shallow embedding of [KVDataProvider] (namespace resolver and entry
    store accessor) and of the search code of [KVTreeProvider], together
    with the properties the design specification states about them.

    Conventions of the embedding:
    - a JavaScript string is a Rocq [string]; none of the embedded functions
      depends on the width of a code unit, and SQLite's BINARY collation
      compares the bytes of the keys, which is the order of [String.compare];
    - numbers that index strings are [Z] (they can go below zero before
      [Math.max] clamps them), counters are [nat];
    - the two [Map] fields of [KVDataProvider] are [gmap]s keyed by strings;
    - asynchronous methods are run to completion one at a time (the
      extension host is single threaded); a method is a function from the
      host and the object's fields to an outcome (a value, a thrown error,
      or a promise that never settles), the new fields and the list of
      effects it performed;
    - the host is the disk together with the database files SQLite cannot
      open; a [Disk] used where a host is expected is the host on which
      every database file opens;
    - the effects recorded are the calls to [fs], to the database handles,
      to [console.error] and [console.warn], the entries of [getKVData] and
      [getValue], and the commands sent to the editor; the informational
      [console.log] lines, the debug output channel and the [busy] flag of
      the quick pick are left out. *)

From Stdlib Require Import ZArith Ascii String.
From stdpp Require Import gmap strings list sorting.

Local Open Scope Z_scope.

(** ** JavaScript string primitives *)

Module Js.

(** [s.length] *)
Definition length (s : string) : Z := Z.of_nat (String.length s).

(** [s[i]]: the character at [i], [None] (undefined) out of range. *)
Definition at_ (s : string) (i : nat) : option ascii := String.get i s.

(** [s.substring(a, b)]: both indices are clamped to [0, s.length] and
    swapped when the first is the larger one. *)
Definition substring (s : string) (a b : Z) : string :=
  let clamp x := Z.min (Z.max x 0) (length s) in
  let a' := clamp a in
  let b' := clamp b in
  let lo := Z.min a' b' in
  let hi := Z.max a' b' in
  String.substring (Z.to_nat lo) (Z.to_nat (hi - lo)) s.

(** [s.indexOf(t)]: the first position where [t] occurs in [s], or -1. *)
Definition indexOf (s t : string) : Z :=
  match String.index 0 t s with
  | Some i => Z.of_nat i
  | None => -1
  end.

(** [s.includes(t)] *)
Definition includes (s t : string) : bool :=
  match String.index 0 t s with
  | Some _ => true
  | None => false
  end.

(** [s.endsWith(t)] *)
Definition endsWith (s t : string) : bool :=
  String.prefix (String.rev t) (String.rev s).

(** [s.replace(/\\n/g, ' ')]: the regular expression matches a backslash
    followed by the letter n; every match, scanning from the left, is
    replaced by one space. *)
Fixpoint replace_backslash_n (s : string) : string :=
  match s with
  | EmptyString => EmptyString
  | String c rest =>
      match rest with
      | String d rest' =>
          if (Ascii.eqb c "\" && Ascii.eqb d "n")%bool
          then String " " (replace_backslash_n rest')
          else String c (replace_backslash_n rest)
      | EmptyString => String c EmptyString
      end
  end.

(** Truthiness of a string: only the empty string is falsy. *)
Definition truthy (s : string) : bool :=
  negb (String.eqb s "").

End Js.

(** ** Library functions of the Node runtime

    [path.join] and [String.prototype.toLowerCase] are taken as they
    come: every theorem below holds for any implementation of them. *)

Class NodeRuntime := {
  path_join : list string → string;
  toLowerCase : string → string
}.

(** ** [KVTreeProvider.fuzzyMatch] *)

(** The [for] loop of [fuzzyMatch]: [i] walks over [text], [searchIndex]
    over [search]; the loop stops when either index reaches the end.  The
    fuel bounds the number of iterations; [String.length text] is enough
    since [i] grows at every turn. *)
Fixpoint fuzzyMatch_loop (fuel : nat) (text search : string)
    (i searchIndex : nat) : nat :=
  match fuel with
  | O => searchIndex
  | S fuel' =>
      if ((i <? String.length text)%nat && (searchIndex <? String.length search)%nat)%bool
      then
        let searchIndex' :=
          if bool_decide (Js.at_ text i = Js.at_ search searchIndex)
          then S searchIndex else searchIndex in
        fuzzyMatch_loop fuel' text search (S i) searchIndex'
      else searchIndex
  end.

Definition fuzzyMatch (text search : string) : bool :=
  (fuzzyMatch_loop (String.length text) text search 0 0 =? String.length search)%nat.


(** ** The data on disk *)

(** A row of [_mf_entries] as [queryEntries] returns it. *)
Record KVEntry := {
  key : string;
  blobId : string;
  expiration : option Z;
  metadata : option string
}.

Record KVData := {
  namespace : string;
  entries : list KVEntry
}.

(** What the callback of [db.all] or [db.get] receives: an error, or the
    rows. *)
Inductive QueryResult (A : Type) : Type :=
  | QueryError (err : string)
  | QueryRows (rows : A).
Arguments QueryError {A} err.
Arguments QueryRows {A} rows.

(** The four statements the provider sends, and what a database file
    answers to each of them.
    - [select_entries]:
      SELECT key, blob_id as blobId, expiration, metadata FROM _mf_entries ORDER BY key
    - [select_blob_id k]: SELECT blob_id as blobId FROM _mf_entries WHERE key = ?
      (one row or undefined; the row holds the blob id)
    - [select_count]: SELECT COUNT( * ) as count FROM _mf_entries
    - [select_sample n]: SELECT blob_id as blobId FROM _mf_entries LIMIT n *)
Record SqliteFile := {
  select_entries : QueryResult (list KVEntry);
  select_blob_id : string → QueryResult (option string);
  select_count : QueryResult (option Z);
  select_sample : nat → QueryResult (list string)
}.

Inductive Query :=
  | SelectEntries
  | SelectBlobId (k : string)
  | SelectCount
  | SelectSample (limit : nat).

(** SQLite's answers for a readable file whose table [_mf_entries] holds
    [rows] (in rowid order): ORDER BY sorts by key under the BINARY
    collation, WHERE key = ? finds the row with that key, LIMIT n scans the
    first [n] rows. *)
Definition key_le (e1 e2 : KVEntry) : Prop := String.le (key e1) (key e2).

Global Instance key_le_dec : RelDecision key_le.
Proof. intros e1 e2. unfold key_le. apply _. Defined.

Definition table_file (rows : list KVEntry) : SqliteFile := {|
  select_entries := QueryRows (merge_sort key_le rows);
  select_blob_id k :=
    QueryRows (blobId <$> List.find (λ e, String.eqb (key e) k) rows);
  select_count := QueryRows (Some (Z.of_nat (List.length rows)));
  select_sample n := QueryRows (blobId <$> take n rows)
|}.

(** A file SQLite cannot read (not a database, no such table, ...): every
    statement fails. *)
Definition unreadable_file (err : string) : SqliteFile := {|
  select_entries := QueryError err;
  select_blob_id _ := QueryError err;
  select_count := QueryError err;
  select_sample _ := QueryError err
|}.

Record WorkerProject := {
  name : string;
  path : string;
  kvNamespaces : list (string * string)   (* binding, id *)
}.

(** The world outside the extension at the time of a call. *)
Record Disk := {
  (** does [fs.access p] resolve? *)
  accessible : string → bool;
  (** [fs.readdir p]; [None] when it rejects *)
  dir_entries : string → option (list string);
  (** [fs.readFile p 'utf-8']; [None] when it rejects *)
  file_text : string → option string;
  (** the database file at a path *)
  sqlite : string → SqliteFile;
  (** what [workerDiscovery.findWorkers()] resolves to *)
  discovered : list WorkerProject
}.

(** The machine the extension runs on: the disk, and whether SQLite can open
    the database file at a path.  [new sqlite3.Database(p, OPEN_READONLY)]
    returns a handle at once and opens the file in the background; when the
    open fails (no such file, a directory, permission denied) the handle
    never opens, and the statements sent to it stay queued: their callbacks
    are never called.  [can_open p] says whether a handle on [p] opens; for
    a handle that is already cached, whether it did. *)
Record Host := {
  host_disk : Disk;
  can_open : string → bool
}.

(** The host with this disk on which every database file opens.  A
    property stated for a [Disk] is a property of that host: it describes
    the provider while SQLite opens every file it is given.  What the
    provider does with a file that does not open is stated for a [Host]. *)
Definition opening (d : Disk) : Host :=
  {| host_disk := d; can_open := λ _, true |}.
Coercion opening : Disk >-> Host.

(** ** Effects *)

(** The places that write to [console.error] or [console.warn]. *)
Inductive LogSite :=
  | NoDatabaseForNamespace (namespaceId : string)
  | NoDatabaseForGetValue
  | NoBlobIdForKey (k : string)
  | ErrorReadingBlob (blobPath : string)
  | MiniflareDirMissing (dir : string)
  | CannotReadKvDir (kvPath : string)
  | BlobsDirMissing (dir : string)
  | ErrorCheckingDatabase (dbPath : string)
  | ErrorFindingDatabase (namespaceId : string)
  | ErrorQueryingEntries
  | ErrorGettingBlobId (k : string)
  | ErrorGettingEntryCount
  | ErrorGettingSampleBlobIds
  | ErrorClosingDatabase
  | ErrorSearchingNamespace (namespaceId : string).

Inductive UiEffect :=
  | SetSearchingContext (b : bool)
  | FireTreeDataChanged
  | ShowInformationMessage (matches : nat)
  | ShowWarningMessage (searchTerm : string).

Inductive Event :=
  | FsAccess (p : string)
  | FsReaddir (p : string)
  | FsReadFile (p : string)
  | DbOpen (p : string)
  | DbClose (p : string)
  | DbQuery (p : string) (q : Query)
  | ConsoleError (site : LogSite)
  | ConsoleWarn (site : LogSite)
  | CallGetKVData (workerPath namespaceId : string)
  | CallGetValue (workerPath namespaceId k : string)
  | Ui (u : UiEffect).

Inductive JsError :=
  | AccessFailed (p : string)
  | ReaddirFailed (p : string)
  | ReadFileFailed (p : string).

(** How the promise of an asynchronous method ends: fulfilled, rejected, or
    never settled ([Pending]: the method awaits a promise nothing will ever
    resolve). *)
Inductive Outcome (A : Type) : Type :=
  | Returned (a : A)
  | Thrown (e : JsError)
  | Pending.
Arguments Returned {A} a.
Arguments Thrown {A} e.
Arguments Pending {A}.

(** A method over fields of type [S]: it reads the host, and produces an
    outcome, the new fields and the effects it performed, oldest first. *)
Definition M (S A : Type) : Type := Host → S → Outcome A * S * list Event.

Definition ret {S A} (a : A) : M S A := λ _ s, (Returned a, s, []).

Definition bind {S A B} (m : M S A) (k : A → M S B) : M S B :=
  λ d s,
    match m d s with
    | (Returned a, s1, t1) =>
        match k a d s1 with
        | (r, s2, t2) => (r, s2, t1 ++ t2)
        end
    | (Thrown e, s1, t1) => (Thrown e, s1, t1)
    | (Pending, s1, t1) => (Pending, s1, t1)
    end.

Definition throw {S A} (e : JsError) : M S A := λ _ s, (Thrown e, s, []).

(** Awaiting a promise that is never settled: what follows never runs, and
    no [catch] sees it. *)
Definition never {S A} : M S A := λ _ s, (Pending, s, []).

(** [try { body } catch (e) { handler e }] *)
Definition try_catch {S A} (body : M S A) (handler : JsError → M S A) : M S A :=
  λ d s,
    match body d s with
    | (Returned a, s1, t1) => (Returned a, s1, t1)
    | (Thrown e, s1, t1) =>
        match handler e d s1 with
        | (r, s2, t2) => (r, s2, t1 ++ t2)
        end
    | (Pending, s1, t1) => (Pending, s1, t1)
    end.

Definition get_fields {S} : M S S := λ _ s, (Returned s, s, []).
Definition set_fields {S} (s : S) : M S unit := λ _ _, (Returned tt, s, []).
Definition host {S} : M S Host := λ h s, (Returned h, s, []).
Definition disk {S} : M S Disk := λ h s, (Returned (host_disk h), s, []).
Definition emit {S} (e : Event) : M S unit := λ _ s, (Returned tt, s, [e]).

(** Running a method of a component on the part of a larger state that
    belongs to it. *)
Definition zoom {S T A} (proj : T → S) (upd : S → T → T) (m : M S A) : M T A :=
  λ d t,
    match m d (proj t) with
    | (r, s1, tr) => (r, upd s1 t, tr)
    end.

Notation "x <- m ;; k" := (bind m (λ x, k))
  (at level 100, m at next level, right associativity).
Notation "m ;; k" := (bind m (λ _, k))
  (at level 100, right associativity).

Definition console_error {S} (site : LogSite) : M S unit := emit (ConsoleError site).
Definition console_warn {S} (site : LogSite) : M S unit := emit (ConsoleWarn site).

(** [await fs.access(p)] *)
Definition fs_access {S} (p : string) : M S unit :=
  d <- disk ;;
  emit (FsAccess p) ;;
  if accessible d p then ret tt else throw (AccessFailed p).

(** [await fs.readdir(p)] *)
Definition fs_readdir {S} (p : string) : M S (list string) :=
  d <- disk ;;
  emit (FsReaddir p) ;;
  match dir_entries d p with
  | Some files => ret files
  | None => throw (ReaddirFailed p)
  end.

(** [await fs.readFile(p, 'utf-8')] *)
Definition fs_readFile {S} (p : string) : M S string :=
  d <- disk ;;
  emit (FsReadFile p) ;;
  match file_text d p with
  | Some content => ret content
  | None => throw (ReadFileFailed p)
  end.

(** ** [KVDataProvider] *)

(** An open [sqlite3.Database]; the handle knows the file it was opened
    on. *)
Record Database := { filename : string }.

Record KVDataProvider := {
  dbCache : gmap string Database;
  namespaceDbMapping : gmap string string   (* namespace ID -> database path *)
}.

(** [new KVDataProvider()] *)
Definition new_provider : KVDataProvider :=
  {| dbCache := ∅; namespaceDbMapping := ∅ |}.

Definition set_dbCache (c : gmap string Database) (this : KVDataProvider) :=
  {| dbCache := c; namespaceDbMapping := namespaceDbMapping this |}.
Definition set_namespaceDbMapping (m : gmap string string) (this : KVDataProvider) :=
  {| dbCache := dbCache this; namespaceDbMapping := m |}.

(** [db.all(sql, callback)] and [db.get(sql, callback)] inside
    [new Promise((resolve) => ...)]: the statement is sent to the handle;
    when the file of the handle opens, the statement runs on it and the
    callback receives the answer; when it does not, the callback is never
    called, so the promise is never resolved.  [getDatabase] gives
    [new sqlite3.Database] no callback and the handle no listener for its
    error event, so the failed open is not reported to the provider: no
    method of the provider is called with it, and nothing is logged. *)
Definition db_run {A} (db : Database) (q : Query) (answer : SqliteFile → QueryResult A)
    : M KVDataProvider (QueryResult A) :=
  h <- host ;;
  emit (DbQuery (filename db) q) ;;
  if can_open h (filename db)
  then ret (answer (sqlite (host_disk h) (filename db)))
  else never.

(** [db.close()] *)
Definition db_close (db : Database) : M KVDataProvider unit :=
  emit (DbClose (filename db)).

Section Provider.
Context `{NodeRuntime}.

(** [new sqlite3.Database(dbPath, sqlite3.OPEN_READONLY)] is given no
    callback: the handle is cached at once, whether its file opens or
    not. *)
Definition getDatabase (dbPath : string) : M KVDataProvider Database :=
  this <- get_fields ;;
  match dbCache this !! dbPath with
  | Some db => ret db
  | None =>
      let db := {| filename := dbPath |} in
      emit (DbOpen dbPath) ;;
      set_fields (set_dbCache (<[dbPath := db]> (dbCache this)) this) ;;
      ret db
  end.

Definition queryEntries (dbPath : string) : M KVDataProvider (list KVEntry) :=
  db <- getDatabase dbPath ;;
  r <- db_run db SelectEntries select_entries ;;
  match r with
  | QueryError err => console_error ErrorQueryingEntries ;; ret []
  | QueryRows rows => ret rows
  end.

(** [row?.blobId || null]: no row, or a row whose blob id is the empty
    string, gives null. *)
Definition getBlobId (dbPath k : string) : M KVDataProvider (option string) :=
  db <- getDatabase dbPath ;;
  r <- db_run db (SelectBlobId k) (λ f, select_blob_id f k) ;;
  match r with
  | QueryError err => console_error (ErrorGettingBlobId k) ;; ret None
  | QueryRows row =>
      ret (match row with
           | Some b => if Js.truthy b then Some b else None
           | None => None
           end)
  end.

(** [row?.count || 0] *)
Definition getEntryCount (dbPath : string) : M KVDataProvider Z :=
  db <- getDatabase dbPath ;;
  r <- db_run db SelectCount select_count ;;
  match r with
  | QueryError err => console_error ErrorGettingEntryCount ;; ret 0
  | QueryRows row =>
      ret (match row with
           | Some count => if count =? 0 then 0 else count
           | None => 0
           end)
  end.

Definition getSampleBlobIds (dbPath : string) (limit : nat)
    : M KVDataProvider (list string) :=
  db <- getDatabase dbPath ;;
  r <- db_run db (SelectSample limit) (λ f, select_sample f limit) ;;
  match r with
  | QueryError err => console_error ErrorGettingSampleBlobIds ;; ret []
  | QueryRows rows => ret rows
  end.

(** The loop over [sampleBlobs] in [findDatabaseForNamespace]; it gives
    the two counters as they are when the loop is left (by exhaustion or
    by [break]). *)
Fixpoint checkSampleBlobs (nsBlobsPath : string) (sampleBlobs : list string)
    (matchCount checkedCount : nat) : M KVDataProvider (nat * nat) :=
  match sampleBlobs with
  | [] => ret (matchCount, checkedCount)
  | blobId :: rest =>
      let checkedCount := S checkedCount in
      let blobPath := path_join [nsBlobsPath; blobId] in
      found <- try_catch (fs_access blobPath ;; ret true) (λ _, ret false) ;;
      if found : bool
      then checkSampleBlobs nsBlobsPath rest (S matchCount) checkedCount
      else ret (matchCount, checkedCount)
  end.

(** The body of the loop over [sqliteFiles] for one [file]: [Some dbPath]
    when the function returns from inside the loop, [None] when the loop
    goes on to the next file. *)
Definition checkDatabase (miniflareDir nsBlobsPath namespaceId file : string)
    : M KVDataProvider (option string) :=
  let dbPath := path_join [miniflareDir; file] in
  try_catch
    (count <- getEntryCount dbPath ;;
     if count =? 0 then ret None
     else
       sampleBlobs <- getSampleBlobIds dbPath 3 ;;
       counters <- checkSampleBlobs nsBlobsPath sampleBlobs 0 0 ;;
       let '(matchCount, checkedCount) := counters in
       if ((matchCount =? checkedCount)%nat && (0 <? matchCount)%nat)%bool
       then
         this <- get_fields ;;
         set_fields (set_namespaceDbMapping
                       (<[namespaceId := dbPath]> (namespaceDbMapping this)) this) ;;
         ret (Some dbPath)
       else ret None)
    (λ _, console_error (ErrorCheckingDatabase dbPath) ;; ret None).

Fixpoint checkDatabases (miniflareDir nsBlobsPath namespaceId : string)
    (sqliteFiles : list string) : M KVDataProvider (option string) :=
  match sqliteFiles with
  | [] => ret None
  | file :: rest =>
      r <- checkDatabase miniflareDir nsBlobsPath namespaceId file ;;
      match r with
      | Some dbPath => ret (Some dbPath)
      | None => checkDatabases miniflareDir nsBlobsPath namespaceId rest
      end
  end.

Definition isSqliteFile (f : string) : bool :=
  Js.endsWith f ".sqlite" && negb (Js.endsWith f "-wal") && negb (Js.endsWith f "-shm").

(** The first block of [findDatabaseForNamespace], "Check cache first":
    [Some cachedPath] when the function returns the cached path. *)
Definition checkCache (namespaceId : string) : M KVDataProvider (option string) :=
  this <- get_fields ;;
  match namespaceDbMapping this !! namespaceId with
  | Some cachedPath =>
      try_catch
        (fs_access cachedPath ;; ret (Some cachedPath))
        (λ _,
           set_fields (set_namespaceDbMapping
                         (delete namespaceId (namespaceDbMapping this)) this) ;;
           this <- get_fields ;;
           match dbCache this !! cachedPath with
           | Some db =>
               try_catch (db_close db) (λ _, ret tt) ;;
               set_fields (set_dbCache (delete cachedPath (dbCache this)) this)
           | None => ret tt
           end ;;
           ret None)
  | None => ret None
  end.

(** The rest of [findDatabaseForNamespace], from the check of the
    miniflare directory on. *)
Definition probeDatabases (kvPath namespaceId : string)
    : M KVDataProvider (option string) :=
  let miniflareDir := path_join [kvPath; "miniflare-KVNamespaceObject"] in
  present <- try_catch
    (fs_access miniflareDir ;; ret true)
    (λ _,
       console_error (MiniflareDirMissing miniflareDir) ;;
       try_catch (fs_readdir kvPath ;; ret tt)
                 (λ _, console_error (CannotReadKvDir kvPath)) ;;
       ret false) ;;
  if negb present then ret None
  else
    let nsPath := path_join [kvPath; namespaceId] in
    let nsBlobsPath := path_join [nsPath; "blobs"] in
    present <- try_catch
      (fs_access nsBlobsPath ;; ret true)
      (λ _, console_error (BlobsDirMissing nsBlobsPath) ;; ret false) ;;
    if negb present then ret None
    else
      try_catch
        (files <- fs_readdir miniflareDir ;;
         let sqliteFiles := List.filter isSqliteFile files in
         checkDatabases miniflareDir nsBlobsPath namespaceId sqliteFiles)
        (λ _, console_error (ErrorFindingDatabase namespaceId) ;; ret None).

Definition findDatabaseForNamespace (kvPath namespaceId : string)
    : M KVDataProvider (option string) :=
  cached <- checkCache namespaceId ;;
  match cached with
  | Some cachedPath => ret (Some cachedPath)
  | None => probeDatabases kvPath namespaceId
  end.

Definition kvPathOf (workerPath : string) : string :=
  path_join [workerPath; ".wrangler"; "state"; "v3"; "kv"].

Definition getKVData (workerPath namespaceId : string) : M KVDataProvider KVData :=
  emit (CallGetKVData workerPath namespaceId) ;;
  let kvPath := kvPathOf workerPath in
  dbPath <- findDatabaseForNamespace kvPath namespaceId ;;
  match dbPath with
  | None =>
      console_warn (NoDatabaseForNamespace namespaceId) ;;
      ret {| namespace := namespaceId; entries := [] |}
  | Some dbPath =>
      entries <- queryEntries dbPath ;;
      ret {| namespace := namespaceId; entries := entries |}
  end.

Definition getValue (workerPath namespaceId k : string)
    : M KVDataProvider (option string) :=
  emit (CallGetValue workerPath namespaceId k) ;;
  let kvPath := kvPathOf workerPath in
  dbPath <- findDatabaseForNamespace kvPath namespaceId ;;
  match dbPath with
  | None => console_warn NoDatabaseForGetValue ;; ret None
  | Some dbPath =>
      blobId <- getBlobId dbPath k ;;
      match blobId with
      | None => console_warn (NoBlobIdForKey k) ;; ret None
      | Some blobId =>
          let blobPath := path_join [kvPath; namespaceId; "blobs"; blobId] in
          try_catch
            (content <- fs_readFile blobPath ;; ret (Some content))
            (λ _, console_error (ErrorReadingBlob blobPath) ;; ret None)
      end
  end.

End Provider.

(** ** [KVTreeProvider]: search *)

Record KVTreeProvider := {
  workers : list WorkerProject;
  kvEntries : gmap string (list KVEntry);
  searchTerm : string;
  searchResults : gmap string (gset string)   (* namespaceId -> matching keys *)
}.

(** The two objects [registerKVTreeView] works with. *)
Record Extension := {
  treeProvider : KVTreeProvider;
  kvDataProvider : KVDataProvider
}.

Definition new_extension : Extension :=
  {| treeProvider := {| workers := []; kvEntries := ∅; searchTerm := ""; searchResults := ∅ |};
     kvDataProvider := new_provider |}.

Definition set_workers (w : list WorkerProject) (t : KVTreeProvider) :=
  {| workers := w; kvEntries := kvEntries t;
     searchTerm := searchTerm t; searchResults := searchResults t |}.
Definition set_kvEntries (m : gmap string (list KVEntry)) (t : KVTreeProvider) :=
  {| workers := workers t; kvEntries := m;
     searchTerm := searchTerm t; searchResults := searchResults t |}.
Definition set_searchTerm (s : string) (t : KVTreeProvider) :=
  {| workers := workers t; kvEntries := kvEntries t;
     searchTerm := s; searchResults := searchResults t |}.
Definition set_searchResults (m : gmap string (gset string)) (t : KVTreeProvider) :=
  {| workers := workers t; kvEntries := kvEntries t;
     searchTerm := searchTerm t; searchResults := m |}.

(** A method of [kvDataProvider] called from the tree provider. *)
Definition on_data {A} (m : M KVDataProvider A) : M Extension A :=
  zoom kvDataProvider
       (λ p x, {| treeProvider := treeProvider x; kvDataProvider := p |}) m.

Definition tree_fields : M Extension KVTreeProvider :=
  x <- get_fields ;; ret (treeProvider x).

Definition update_tree (f : KVTreeProvider → KVTreeProvider) : M Extension unit :=
  x <- get_fields ;;
  set_fields {| treeProvider := f (treeProvider x); kvDataProvider := kvDataProvider x |}.

(** An item of the quick pick, with the custom data stored on it. *)
Record QuickPickItem := {
  label : string;
  description : string;
  detail : option string;
  _worker : WorkerProject;
  _namespaceId : string;
  _key : string
}.

Section Search.
Context `{NodeRuntime}.

Definition cacheKeyOf (worker : WorkerProject) (namespaceId : string) : string :=
  path worker +:+ ":" +:+ namespaceId.

Definition refresh : M Extension unit := emit (Ui FireTreeDataChanged).

Definition clearSearch : M Extension unit :=
  update_tree (set_searchTerm "") ;;
  update_tree (set_searchResults ∅) ;;
  emit (Ui (SetSearchingContext false)) ;;
  refresh.

Definition getWorkers : M Extension (list WorkerProject) :=
  this <- tree_fields ;;
  match workers this with
  | [] =>
      d <- disk ;;
      update_tree (set_workers (discovered d)) ;;
      ret (discovered d)
  | _ :: _ => ret (workers this)
  end.

(** The loop over [entries] in [performSearch].  [matchingKeys] and
    [totalMatches] are the two variables the loop updates; nothing in the
    body can throw past its own [try], so they are threaded through. *)
Fixpoint searchEntries (worker : WorkerProject) (namespaceId : string)
    (entries : list KVEntry) (matchingKeys : gset string) (totalMatches : nat)
    : M Extension (gset string * nat) :=
  match entries with
  | [] => ret (matchingKeys, totalMatches)
  | entry :: rest =>
      this <- tree_fields ;;
      if fuzzyMatch (toLowerCase (key entry)) (searchTerm this)
      then
        searchEntries worker namespaceId rest
                      ({[key entry]} ∪ matchingKeys) (S totalMatches)
      else
        r <- try_catch
          (value <- on_data (getValue (path worker) namespaceId (key entry)) ;;
           match value with
           | Some v =>
               if (Js.truthy v && Js.includes (toLowerCase v) (searchTerm this))%bool
               then ret ({[key entry]} ∪ matchingKeys, S totalMatches)
               else ret (matchingKeys, totalMatches)
           | None => ret (matchingKeys, totalMatches)
           end)
          (λ _, ret (matchingKeys, totalMatches)) ;;
        searchEntries worker namespaceId rest r.1 r.2
  end.

(** The body of the loop over [worker.kvNamespaces]. *)
Definition searchNamespace (worker : WorkerProject) (ns : string * string)
    (totalMatches : nat) : M Extension nat :=
  let cacheKey := cacheKeyOf worker ns.2 in
  r <- try_catch
    (this <- tree_fields ;;
     entries <-
       match kvEntries this !! cacheKey with
       | Some entries => ret entries
       | None =>
           data <- on_data (getKVData (path worker) ns.2) ;;
           update_tree (λ t, set_kvEntries (<[cacheKey := entries data]> (kvEntries t)) t) ;;
           ret (entries data)
       end ;;
     searchEntries worker ns.2 entries ∅ totalMatches)
    (λ _, console_error (ErrorSearchingNamespace ns.2) ;; ret (∅, totalMatches)) ;;
  (if (0 <? size r.1)%nat
   then update_tree (λ t, set_searchResults (<[cacheKey := r.1]> (searchResults t)) t)
   else ret tt) ;;
  ret r.2.

Fixpoint searchNamespaces (worker : WorkerProject) (nss : list (string * string))
    (totalMatches : nat) : M Extension nat :=
  match nss with
  | [] => ret totalMatches
  | ns :: rest =>
      totalMatches <- searchNamespace worker ns totalMatches ;;
      searchNamespaces worker rest totalMatches
  end.

Fixpoint searchWorkers (ws : list WorkerProject) (totalMatches : nat)
    : M Extension nat :=
  match ws with
  | [] => ret totalMatches
  | worker :: rest =>
      totalMatches <- searchNamespaces worker (kvNamespaces worker) totalMatches ;;
      searchWorkers rest totalMatches
  end.

(** [performSearch]; [None] is the [undefined] of the early return. *)
Definition performSearch (searchTerm : string) (showNotification : bool)
    : M Extension (option nat) :=
  update_tree (set_searchTerm (toLowerCase searchTerm)) ;;
  update_tree (set_searchResults ∅) ;;
  if negb (Js.truthy searchTerm)
  then
    emit (Ui (SetSearchingContext false)) ;;
    refresh ;;
    ret None
  else
    emit (Ui (SetSearchingContext true)) ;;
    d <- disk ;;
    totalMatches <- searchWorkers (discovered d) 0 ;;
    refresh ;;
    (if showNotification
     then
       if (0 <? totalMatches)%nat
       then emit (Ui (ShowInformationMessage totalMatches))
       else emit (Ui (ShowWarningMessage searchTerm))
     else ret tt) ;;
    ret (Some totalMatches).

(** The preview of a value match in the quick pick: [content] is the
    value, [value] the text typed in the quick pick. *)
Definition valuePreviewOf (content value : string) : string :=
  let index := Js.indexOf (toLowerCase content) (toLowerCase value) in
  let start := Z.max 0 (index - 20) in
  let end_ := Z.min (Js.length content) (index + Js.length value + 20) in
  let valuePreview := Js.replace_backslash_n (Js.substring content start end_) in
  let valuePreview := if 0 <? start then "..." +:+ valuePreview else valuePreview in
  let valuePreview :=
    if end_ <? Js.length content then valuePreview +:+ "..." else valuePreview in
  valuePreview.

(** The loop over [data.entries] in the quick pick's search; [results] is
    the array the loop pushes to. *)
Fixpoint liveSearchEntries (worker : WorkerProject) (ns : string * string)
    (value : string) (entries : list KVEntry) (results : list QuickPickItem)
    : M Extension (list QuickPickItem) :=
  match entries with
  | [] => ret results
  | entry :: rest =>
      let keyMatch := fuzzyMatch (toLowerCase (key entry)) (toLowerCase value) in
      r <- try_catch
        (content <- on_data (getValue (path worker) ns.2 (key entry)) ;;
         match content with
         | Some c =>
             if Js.truthy c
             then
               let valueMatch := Js.includes (toLowerCase c) (toLowerCase value) in
               ret (valueMatch, if valueMatch then valuePreviewOf c value else "")
             else ret (false, "")
         | None => ret (false, "")
         end)
        (λ _, ret (false, "")) ;;
      let '(valueMatch, valuePreview) := r in
      let results :=
        if (keyMatch || valueMatch)%bool
        then results ++ [{| label := "$(key) " +:+ key entry;
                            description := name worker +:+ " / " +:+ ns.1;
                            detail := if valueMatch
                                      then Some ("Value: " +:+ valuePreview)
                                      else None;
                            _worker := worker;
                            _namespaceId := ns.2;
                            _key := key entry |}]
        else results in
      liveSearchEntries worker ns value rest results
  end.

Fixpoint liveSearchNamespaces (worker : WorkerProject) (nss : list (string * string))
    (value : string) (results : list QuickPickItem)
    : M Extension (list QuickPickItem) :=
  match nss with
  | [] => ret results
  | ns :: rest =>
      results <- try_catch
        (data <- on_data (getKVData (path worker) ns.2) ;;
         liveSearchEntries worker ns value (entries data) results)
        (λ _, ret results) ;;
      liveSearchNamespaces worker rest value results
  end.

Fixpoint liveSearchWorkers (ws : list WorkerProject) (value : string)
    (results : list QuickPickItem) : M Extension (list QuickPickItem) :=
  match ws with
  | [] => ret results
  | worker :: rest =>
      results <- liveSearchNamespaces worker (kvNamespaces worker) value results ;;
      liveSearchWorkers rest value results
  end.

(** The debounced callback of the quick pick, once its timer has fired;
    the result is what it assigns to [quickPick.items].  The direct
    discovery it runs when [getWorkers] gives no worker only feeds the debug
    output and is left out. *)
Definition liveSearch (value : string) : M Extension (list QuickPickItem) :=
  if negb (Js.truthy value)
  then clearSearch ;; ret []
  else
    ws <- getWorkers ;;
    results <- liveSearchWorkers ws value [] ;;
    performSearch value false ;;
    ret results.

End Search.

(** ** Specification-level definitions *)

(** The characters of a string. *)
Definition chars (s : string) : list ascii := list_ascii_of_string s.

(** How many characters of [search] a greedy left-to-right scan of [text]
    consumes. *)
Fixpoint consume (text search : list ascii) : nat :=
  match text, search with
  | c :: text', q :: search' =>
      if decide (c = q) then S (consume text' search') else consume text' search
  | _, _ => O
  end.

(** Keys strictly ascending, in the byte order of SQLite's BINARY
    collation. *)
Definition keys_ascending (es : list KVEntry) : Prop :=
  StronglySorted (λ a b, String.ltb a b = true) (key <$> es).

(** Every handle of the handle cache is filed under the path it was opened
    on; [getDatabase] is the only place that adds one. *)
Definition cache_ok (this : KVDataProvider) : Prop :=
  map_Forall (λ p db, filename db = p) (dbCache this).

(** The fields after [getDatabase dbPath]. *)
Definition opened (dbPath : string) (this : KVDataProvider) : KVDataProvider :=
  set_dbCache (<[dbPath := {| filename := dbPath |}]> (dbCache this)) this.

(** What [getEntryCount] and [getSampleBlobIds] give on a file. *)
Definition entryCountOf (f : SqliteFile) : Z :=
  match select_count f with
  | QueryRows (Some count) => count
  | _ => 0
  end.

Definition sampleOf (f : SqliteFile) (limit : nat) : list string :=
  match select_sample f limit with
  | QueryRows rows => rows
  | QueryError _ => []
  end.

(** The content-reference ids sampled from a candidate: none when the
    candidate is skipped for having no entries, else up to three. *)
Definition sampledBlobIds (f : SqliteFile) : list string :=
  if entryCountOf f =? 0 then [] else sampleOf f 3.

(** The sampled ids that are looked up: all up to the first miss, the miss
    included. *)
Fixpoint checkedBlobIds (present : string → bool) (sample : list string) : list string :=
  match sample with
  | [] => []
  | b :: rest => if present b then b :: checkedBlobIds present rest else [b]
  end.

(** How many sampled ids are found before the loop over the sample is
    left. *)
Fixpoint matchedCount (present : string → bool) (sample : list string) : nat :=
  match sample with
  | [] => O
  | b :: rest => if present b then S (matchedCount present rest) else O
  end.

(** The paths of the [fs.access] calls of a trace, in order. *)
Definition accessed (tr : list Event) : list string :=
  omap (λ e, match e with FsAccess p => Some p | _ => None end) tr.

(** The effect of [getDatabase dbPath]: the file is opened unless a handle
    is cached. *)
Definition open_trace (dbPath : string) (this : KVDataProvider) : list Event :=
  match dbCache this !! dbPath with
  | Some _ => []
  | None => [DbOpen dbPath]
  end.

(** The effects of one of the four query methods: the handle, the
    statement, and the log line when the statement failed. *)
Definition query_trace {A} (dbPath : string) (this : KVDataProvider) (q : Query)
    (answer : QueryResult A) (site : LogSite) : list Event :=
  open_trace dbPath this
  ++ DbQuery dbPath q
  :: match answer with
     | QueryError _ => [ConsoleError site]
     | QueryRows _ => []
     end.

(** The events a resolution can perform: it looks at the file system and
    queries candidate databases; it reads no blob and calls no public
    method. *)
Definition probe_event (e : Event) : Prop :=
  match e with
  | FsAccess _ | FsReaddir _ | DbOpen _ | DbClose _ | DbQuery _ _ | ConsoleError _ => True
  | _ => False
  end.

Section Candidates.
Context `{NodeRuntime}.

(** Is the blob [b] present under the blobs directory? *)
Definition blobPresent (d : Disk) (nsBlobsPath b : string) : bool :=
  accessible d (path_join [nsBlobsPath; b]).

(** The candidate matches: at least one id was sampled and every sampled
    id is present under the blobs directory. *)
Definition candidateMatches (d : Disk) (nsBlobsPath dbPath : string) : bool :=
  match sampledBlobIds (sqlite d dbPath) with
  | [] => false
  | sample => forallb (blobPresent d nsBlobsPath) sample
  end.

(** The effects of probing one candidate. *)
Definition checkDatabase_trace (d : Disk) (this : KVDataProvider)
    (nsBlobsPath dbPath : string) : list Event :=
  let f := sqlite d dbPath in
  query_trace dbPath this SelectCount (select_count f) ErrorGettingEntryCount
  ++ (if entryCountOf f =? 0 then []
      else
        query_trace dbPath (opened dbPath this) (SelectSample 3)
                    (select_sample f 3) ErrorGettingSampleBlobIds
        ++ ((λ b, FsAccess (path_join [nsBlobsPath; b]))
              <$> checkedBlobIds (blobPresent d nsBlobsPath) (sampleOf f 3))).

(** The result of a full probe of the candidates of a directory listing:
    the first candidate, in the order of the listing, that matches. *)
Definition firstMatch (d : Disk) (miniflareDir nsBlobsPath : string)
    (files : list string) : option string :=
  List.find (candidateMatches d nsBlobsPath)
            ((λ file, path_join [miniflareDir; file]) <$> List.filter isSqliteFile files).

(** The paths the resolver works with. *)
Definition miniflareDirOf (kvPath : string) : string :=
  path_join [kvPath; "miniflare-KVNamespaceObject"].
Definition nsBlobsPathOf (kvPath namespaceId : string) : string :=
  path_join [path_join [kvPath; namespaceId]; "blobs"].

(** The result of the probe that [findDatabaseForNamespace] runs when the
    cache does not answer. *)
Definition probeResult (d : Disk) (kvPath namespaceId : string) : option string :=
  if accessible d (miniflareDirOf kvPath)
     && accessible d (nsBlobsPathOf kvPath namespaceId)
  then
    match dir_entries d (miniflareDirOf kvPath) with
    | Some files =>
        firstMatch d (miniflareDirOf kvPath) (nsBlobsPathOf kvPath namespaceId) files
    | None => None
    end
  else None.

End Candidates.

(** The fields after a stale cache entry [namespaceId -> cachedPath] has
    been dropped. *)
Definition invalidated (namespaceId cachedPath : string) (this : KVDataProvider)
    : KVDataProvider :=
  {| dbCache := delete cachedPath (dbCache this);
     namespaceDbMapping := delete namespaceId (namespaceDbMapping this) |}.

(** The handle cached for [cachedPath], if any, is closed. *)
Definition close_trace (cachedPath : string) (this : KVDataProvider) : list Event :=
  match dbCache this !! cachedPath with
  | Some db => [DbClose (filename db)]
  | None => []
  end.

(** What a probe leaves in the resolution cache. *)
Definition recorded (namespaceId : string) (result : option string)
    (mapping : gmap string string) : gmap string string :=
  match result with
  | Some dbPath => <[namespaceId := dbPath]> mapping
  | None => mapping
  end.

Definition is_readFile (e : Event) : Prop :=
  match e with FsReadFile _ => True | _ => False end.

Definition is_getValue_call (e : Event) : Prop :=
  match e with CallGetValue _ _ _ => True | _ => False end.

(** Every [getValue] call recorded in a trace is for a key the search term
    does not fuzzy-match. *)
Definition fetches_unmatched_only `{NodeRuntime} (term : string) (tr : list Event) : Prop :=
  ∀ workerPath namespaceId k,
    CallGetValue workerPath namespaceId k ∈ tr →
    fuzzyMatch (toLowerCase k) term = false.

(** ** A concrete runtime and a concrete project

    Used to run the methods on explicit inputs.  [join_segments] joins the
    non-empty segments with a slash, as [path.join] does on segments that
    need no normalisation; [lower_ascii] lowers the letters A to Z. *)

Definition join_segments (parts : list string) : string :=
  String.concat "/" (List.filter Js.truthy parts).

Definition lower_char (c : ascii) : ascii :=
  let n := nat_of_ascii c in
  if ((65 <=? n)%nat && (n <=? 90)%nat)%bool then ascii_of_nat (n + 32) else c.

Fixpoint lower_ascii (s : string) : string :=
  match s with
  | EmptyString => EmptyString
  | String c rest => String (lower_char c) (lower_ascii rest)
  end.

Definition simple_runtime : NodeRuntime :=
  {| path_join := join_segments; toLowerCase := lower_ascii |}.

Definition lookup_path {A} (table : list (string * A)) (p : string) : option A :=
  snd <$> List.find (λ x, String.eqb (fst x) p) table.

(** A disk given by the paths that exist, the listings of its directories,
    the text of its files and its databases; a path with no database listed
    is a file SQLite cannot read. *)
Definition disk_of (paths : list string) (dirs : list (string * list string))
    (texts : list (string * string)) (dbs : list (string * SqliteFile))
    (ws : list WorkerProject) : Disk :=
  {| accessible p := existsb (String.eqb p) paths;
     dir_entries := lookup_path dirs;
     file_text := lookup_path texts;
     sqlite p := default (unreadable_file "SQLITE_NOTADB") (lookup_path dbs p);
     discovered := ws |}.

Definition entry (k b : string) : KVEntry :=
  {| key := k; blobId := b; expiration := None; metadata := None |}.

Definition kv_dir : string := "/p/.wrangler/state/v3/kv".
Definition mf_dir : string := "/p/.wrangler/state/v3/kv/miniflare-KVNamespaceObject".
Definition db1_path : string :=
  "/p/.wrangler/state/v3/kv/miniflare-KVNamespaceObject/db1.sqlite".
Definition db2_path : string :=
  "/p/.wrangler/state/v3/kv/miniflare-KVNamespaceObject/db2.sqlite".
Definition n1_blobs : string := "/p/.wrangler/state/v3/kv/N1/blobs".

Definition cache_worker : WorkerProject :=
  {| name := "worker"; path := "/p"; kvNamespaces := [("CACHE", "N1")] |}.

(** The rows of [db1.sqlite], in the order they were inserted. *)
Definition db1_rows : list KVEntry :=
  [entry "b" "blob-b"; entry "a" "blob-a"; entry "c" "blob-c"].

(** A project whose namespace N1 is backed by [db1.sqlite]; [db2.sqlite]
    belongs to some other namespace. *)
Definition disk_ready : Disk :=
  disk_of
    [kv_dir; mf_dir; db1_path; db2_path; n1_blobs;
     "/p/.wrangler/state/v3/kv/N1/blobs/blob-a";
     "/p/.wrangler/state/v3/kv/N1/blobs/blob-b";
     "/p/.wrangler/state/v3/kv/N1/blobs/blob-c"]
    [(mf_dir, ["db2.sqlite"; "db1.sqlite"; "db1.sqlite-shm"; "db1.sqlite-wal"])]
    [("/p/.wrangler/state/v3/kv/N1/blobs/blob-a", "alpha");
     ("/p/.wrangler/state/v3/kv/N1/blobs/blob-b", "the quick brown fox jumps");
     ("/p/.wrangler/state/v3/kv/N1/blobs/blob-c", "gamma")]
    [(db1_path, table_file db1_rows);
     (db2_path, table_file [entry "other" "blob-x"; entry "more" "blob-a"])]
    [cache_worker].

(** The same project after the blobs directory of N1 has been removed. *)
Definition disk_blobs_removed : Disk :=
  disk_of
    [kv_dir; mf_dir; db1_path; db2_path]
    [(mf_dir, ["db2.sqlite"; "db1.sqlite"; "db1.sqlite-shm"; "db1.sqlite-wal"])]
    []
    [(db1_path, table_file db1_rows);
     (db2_path, table_file [entry "other" "blob-x"; entry "more" "blob-a"])]
    [cache_worker].


(** The ready project with one more key, whose row holds an empty blob
    id. *)
Definition disk_empty_blob_id : Disk :=
  disk_of
    [kv_dir; mf_dir; db1_path; n1_blobs;
     "/p/.wrangler/state/v3/kv/N1/blobs/blob-a";
     "/p/.wrangler/state/v3/kv/N1/blobs/blob-b";
     "/p/.wrangler/state/v3/kv/N1/blobs/blob-c"]
    [(mf_dir, ["db1.sqlite"])]
    [("/p/.wrangler/state/v3/kv/N1/blobs/blob-a", "alpha")]
    [(db1_path, table_file (db1_rows ++ [entry "d" ""]))]
    [cache_worker].

(** A project whose database files cannot be read. *)
Definition disk_corrupt : Disk :=
  disk_of [kv_dir; mf_dir; db1_path; n1_blobs] [(mf_dir, ["db1.sqlite"])] [] []
          [cache_worker].

(** The provider after one [getKVData] on the ready project. *)
Definition warm_provider : KVDataProvider :=
  (@getKVData simple_runtime "/p" "N1" disk_ready new_provider).1.2.

(** ** [KVDataProvider.dispose] *)

(** The loop of [dispose] over the handles. *)
Fixpoint closeAll (dbs : list Database) : M KVDataProvider unit :=
  match dbs with
  | [] => ret tt
  | db :: rest =>
      try_catch (db_close db) (λ _, console_error ErrorClosingDatabase) ;;
      closeAll rest
  end.

(** [dispose]: every handle of the handle cache is closed, then both maps
    are cleared.  A [Map] is walked in the order its keys were inserted; a
    [gmap] does not keep that order, so the handles are closed in the order
    of [map_to_list] and the properties of [dispose] are stated for any
    order. *)
Definition dispose : M KVDataProvider unit :=
  this <- get_fields ;;
  closeAll (snd <$> map_to_list (dbCache this)) ;;
  this <- get_fields ;;
  set_fields (set_dbCache ∅ this) ;;
  this <- get_fields ;;
  set_fields (set_namespaceDbMapping ∅ this).

(** ** The life of the database handles *)

(** What an event does to the set of open handles: a file is opened only
    when no handle is open on it, and closed or queried only through an open
    handle; [None] when the event breaks that discipline. *)
Definition handle_step (open : gset string) (e : Event) : option (gset string) :=
  match e with
  | DbOpen p => if decide (p ∈ open) then None else Some ({[p]} ∪ open)
  | DbClose p => if decide (p ∈ open) then Some (open ∖ {[p]}) else None
  | DbQuery p _ => if decide (p ∈ open) then Some open else None
  | _ => Some open
  end.

Fixpoint handle_run (open : gset string) (tr : list Event) : option (gset string) :=
  match tr with
  | [] => Some open
  | e :: rest =>
      match handle_step open e with
      | Some open' => handle_run open' rest
      | None => None
      end
  end.

(** The files a trace opens, in order. *)
Definition opens (tr : list Event) : list string :=
  omap (λ e, match e with DbOpen p => Some p | _ => None end) tr.

(** A trace that takes the handles cached in [this] to those cached in
    [this'] without breaking the discipline of [handle_step]. *)
Definition handles_ok (this this' : KVDataProvider) (tr : list Event) : Prop :=
  handle_run (dom (dbCache this)) tr = Some (dom (dbCache this')).

(** What [getKVData] returns once the resolution has given [r]. *)
Definition listingOf (d : Disk) (namespaceId : string) (r : option string) : KVData :=
  {| namespace := namespaceId;
     entries := match r with
                | Some dbPath =>
                    match select_entries (sqlite d dbPath) with
                    | QueryRows rows => rows
                    | QueryError _ => []
                    end
                | None => []
                end |}.

(** An item of the quick pick made for an entry of the namespace [ns] of
    [worker]: either its key fuzzy-matches the typed text, or it carries the
    preview of a value match. *)
Definition item_of_search `{NodeRuntime} (worker : WorkerProject) (ns : string * string)
    (value : string) (item : QuickPickItem) : Prop :=
  _worker item = worker
  ∧ _namespaceId item = ns.2
  ∧ label item = "$(key) " +:+ _key item
  ∧ description item = name worker +:+ " / " +:+ ns.1
  ∧ (detail item = None →
     fuzzyMatch (toLowerCase (_key item)) (toLowerCase value) = true).

(** ** [KVDocumentProvider] *)

(** A [vscode.Uri], by the three components the provider uses. *)
Record Uri := {
  scheme : string;
  authority : string;
  uri_path : string
}.

(** What a method of the document provider can throw: an error of the data
    provider, or the [URIError] of [decodeURIComponent]. *)
Inductive DocError :=
  | DataError (e : JsError)
  | URIError.

(** Library functions the document provider calls.  [decodeURIComponent]
    gives [None] when it throws; [json_format s] is
    [JSON.stringify(JSON.parse(s), null, 2)], [None] when [JSON.parse]
    throws; [error_text e] is the text the provider shows for a caught
    error. *)
Class UriRuntime := {
  encodeURIComponent : string → string;
  decodeURIComponent : string → option string;
  uri_toString : Uri → string;
  json_format : string → option string;
  error_text : DocError → string
}.

(** [s.split(sep)] for a separator of one character. *)
Fixpoint split_on (sep : ascii) (s : string) : list string :=
  match s with
  | EmptyString => [EmptyString]
  | String c rest =>
      if Ascii.eqb c sep then EmptyString :: split_on sep rest
      else
        match split_on sep rest with
        | piece :: pieces => String c piece :: pieces
        | [] => [String c EmptyString]
        end
  end.

Record KVDocumentProvider := {
  contentCache : gmap string string
}.

(** The document provider and the data provider it was built with. *)
Record Documents := {
  documentProvider : KVDocumentProvider;
  documentData : KVDataProvider
}.

Definition new_documents : Documents :=
  {| documentProvider := {| contentCache := ∅ |}; documentData := new_provider |}.

Definition set_contentCache (c : gmap string string) (x : Documents) : Documents :=
  {| documentProvider := {| contentCache := c |}; documentData := documentData x |}.

(** The effects of the document provider: those of the data provider, the
    error log of its own [catch], and the change event it fires. *)
Inductive DocEvent :=
  | DataEvent (e : Event)
  | DocConsoleError
  | DidChange (uri : Uri).

Inductive DocOutcome (A : Type) : Type :=
  | DocReturned (a : A)
  | DocThrown (e : DocError)
  | DocPending.
Arguments DocReturned {A} a.
Arguments DocThrown {A} e.
Arguments DocPending {A}.

(** A method of the document provider. *)
Definition D (A : Type) : Type :=
  Host → Documents → DocOutcome A * Documents * list DocEvent.

Definition dret {A} (a : A) : D A := λ _ x, (DocReturned a, x, []).

Definition dbind {A B} (m : D A) (k : A → D B) : D B :=
  λ d x,
    match m d x with
    | (DocReturned a, x1, t1) =>
        match k a d x1 with
        | (r, x2, t2) => (r, x2, t1 ++ t2)
        end
    | (DocThrown e, x1, t1) => (DocThrown e, x1, t1)
    | (DocPending, x1, t1) => (DocPending, x1, t1)
    end.

Definition dthrow {A} (e : DocError) : D A := λ _ x, (DocThrown e, x, []).

Definition dtry {A} (body : D A) (handler : DocError → D A) : D A :=
  λ d x,
    match body d x with
    | (DocReturned a, x1, t1) => (DocReturned a, x1, t1)
    | (DocThrown e, x1, t1) =>
        match handler e d x1 with
        | (r, x2, t2) => (r, x2, t1 ++ t2)
        end
    | (DocPending, x1, t1) => (DocPending, x1, t1)
    end.

Definition dget : D Documents := λ _ x, (DocReturned x, x, []).
Definition dset (x : Documents) : D unit := λ _ _, (DocReturned tt, x, []).
Definition demit (e : DocEvent) : D unit := λ _ x, (DocReturned tt, x, [e]).

(** A method of the data provider called from the document provider. *)
Definition data_call {A} (m : M KVDataProvider A) : D A :=
  λ d x,
    match m d (documentData x) with
    | (Returned a, p, tr) =>
        (DocReturned a,
         {| documentProvider := documentProvider x; documentData := p |},
         DataEvent <$> tr)
    | (Thrown e, p, tr) =>
        (DocThrown (DataError e),
         {| documentProvider := documentProvider x; documentData := p |},
         DataEvent <$> tr)
    | (Pending, p, tr) =>
        (DocPending,
         {| documentProvider := documentProvider x; documentData := p |},
         DataEvent <$> tr)
    end.

Notation "x <~ m ;; k" := (dbind m (λ x, k))
  (at level 100, m at next level, right associativity).
Notation "m ;;; k" := (dbind m (λ _, k))
  (at level 100, right associativity).

Section Document.
Context `{NodeRuntime} `{UriRuntime}.

(** [decodeURIComponent(s)], which may throw. *)
Definition decode (s : string) : D string :=
  match decodeURIComponent s with
  | Some t => dret t
  | None => dthrow URIError
  end.

Definition provideTextDocumentContent (uri : Uri) : D string :=
  workerPath <~ decode (authority uri) ;;
  let pathParts := List.filter Js.truthy (split_on "/" (uri_path uri)) in
  if (List.length pathParts <? 2)%nat then dret "// Invalid KV URI"
  else
    let namespaceId := List.nth 0 pathParts "" in
    key <~ decode (String.concat "/" (drop 1 pathParts)) ;;
    let cacheKey := uri_toString uri in
    this <~ dget ;;
    match contentCache (documentProvider this) !! cacheKey with
    | Some cached => dret cached
    | None =>
        dtry
          (content <~ data_call (getValue workerPath namespaceId key) ;;
           match content with
           | Some c =>
               if Js.truthy c
               then
                 let text := match json_format c with
                             | Some formatted => formatted
                             | None => c
                             end in
                 this <~ dget ;;
                 dset (set_contentCache
                         (<[cacheKey := text]> (contentCache (documentProvider this)))
                         this) ;;;
                 dret text
               else dret "// KV entry not found"
           | None => dret "// KV entry not found"
           end)
          (λ e, demit DocConsoleError ;;; dret ("// Error: " +:+ error_text e))
    end.

(** [refresh(uri)] of the document provider. *)
Definition refreshDocument (uri : Uri) : D unit :=
  this <~ dget ;;
  dset (set_contentCache
          (delete (uri_toString uri) (contentCache (documentProvider this))) this) ;;;
  demit (DidChange uri).

(** [dispose()] of the document provider. *)
Definition disposeDocuments : D unit :=
  this <~ dget ;;
  dset (set_contentCache ∅ this).

(** [createKVUri]; [Uri.from] keeps the components it is given. *)
Definition createKVUri (workerPath namespaceId k : string) : Uri :=
  {| scheme := "cloudflare-kv";
     authority := encodeURIComponent workerPath;
     uri_path := "/" +:+ namespaceId +:+ "/" +:+ encodeURIComponent k |}.

End Document.

(** The non-empty segments of the path of a URI. *)
Definition pathPartsOf (uri : Uri) : list string :=
  List.filter Js.truthy (split_on "/" (uri_path uri)).

(** The text the document provider shows for what [getValue] returned. *)
Definition documentText `{UriRuntime} (v : option string) : string :=
  match v with
  | Some c =>
      if Js.truthy c
      then match json_format c with Some formatted => formatted | None => c end
      else "// KV entry not found"
  | None => "// KV entry not found"
  end.

(** Does the document provider keep the text of what [getValue] returned? *)
Definition documentKept (v : option string) : bool :=
  match v with
  | Some c => Js.truthy c
  | None => false
  end.

(** ** A percent codec, for the examples

    [percent_encode] is [encodeURIComponent] on strings of ASCII characters;
    [percent_decode] undoes it and fails on a malformed escape. *)

Definition unreserved (c : ascii) : bool :=
  let n := nat_of_ascii c in
  ((48 <=? n) && (n <=? 57) || (65 <=? n) && (n <=? 90) || (97 <=? n) && (n <=? 122)
   || existsb (Ascii.eqb c) ["-"; "_"; "."; "!"; "~"; "*"; "'"; "("; ")"]%char)%nat%bool.

Definition hex_digit (n : nat) : ascii :=
  List.nth n ["0"; "1"; "2"; "3"; "4"; "5"; "6"; "7"; "8"; "9";
              "A"; "B"; "C"; "D"; "E"; "F"]%char "0"%char.

Definition hex_value (c : ascii) : option nat :=
  let n := nat_of_ascii c in
  if ((48 <=? n) && (n <=? 57))%nat%bool then Some (n - 48)%nat
  else if ((65 <=? n) && (n <=? 70))%nat%bool then Some (n - 55)%nat
  else if ((97 <=? n) && (n <=? 102))%nat%bool then Some (n - 87)%nat
  else None.

Fixpoint percent_encode (s : string) : string :=
  match s with
  | EmptyString => EmptyString
  | String c rest =>
      if unreserved c then String c (percent_encode rest)
      else String "%" (String (hex_digit (nat_of_ascii c / 16))
                         (String (hex_digit (nat_of_ascii c mod 16))
                            (percent_encode rest)))
  end.

Fixpoint percent_decode (s : string) : option string :=
  match s with
  | EmptyString => Some EmptyString
  | String c rest =>
      if Ascii.eqb c "%"
      then
        match rest with
        | String h (String l rest') =>
            match hex_value h, hex_value l with
            | Some a, Some b =>
                String (ascii_of_nat (16 * a + b)) <$> percent_decode rest'
            | _, _ => None
            end
        | _ => None
        end
      else String c <$> percent_decode rest
  end.

(** No value of the example project is JSON. *)
Definition simple_uri_runtime : UriRuntime :=
  {| encodeURIComponent := percent_encode;
     decodeURIComponent := percent_decode;
     uri_toString uri := scheme uri +:+ "://" +:+ authority uri +:+ uri_path uri;
     json_format _ := None;
     error_text _ := "Unknown error" |}.

(** ** [WranglerParser.parse]: the KV namespaces of a parsed configuration

    The part of [parse] that runs once the TOML text has been parsed.  A
    table of a [kv_namespaces] array is given by its [binding] and [id],
    each possibly absent; the environments come in the order of
    [Object.keys(parsed.env)]. *)

Record NamespaceTable := {
  ns_binding : option string;
  ns_id : option string
}.

Record EnvTable := {
  env_kv_namespaces : option (list NamespaceTable)
}.

Record ParsedConfig := {
  parsed_name : option string;
  parsed_kv_namespaces : option (list NamespaceTable);
  parsed_env : option (list (string * EnvTable))
}.

(** [ns.binding && ns.id]: both fields are present and not empty. *)
Definition namespaceOf (ns : NamespaceTable) : option (string * string) :=
  match ns_binding ns, ns_id ns with
  | Some b, Some i => if (Js.truthy b && Js.truthy i)%bool then Some (b, i) else None
  | _, _ => None
  end.

(** The loop over [parsed.kv_namespaces]; [kvNamespaces] is the array the
    loops push to. *)
Fixpoint collectNamespaces (nss : list NamespaceTable)
    (kvNamespaces : list (string * string)) : list (string * string) :=
  match nss with
  | [] => kvNamespaces
  | ns :: rest =>
      collectNamespaces rest
        match namespaceOf ns with
        | Some (b, i) => kvNamespaces ++ [(b, i)]
        | None => kvNamespaces
        end
  end.

(** The loop over [env.kv_namespaces] for the environment [envName]. *)
Fixpoint collectEnvNamespaces (envName : string) (nss : list NamespaceTable)
    (kvNamespaces : list (string * string)) : list (string * string) :=
  match nss with
  | [] => kvNamespaces
  | ns :: rest =>
      collectEnvNamespaces envName rest
        match namespaceOf ns with
        | Some (b, i) =>
            let exists_ := existsb (λ existing, String.eqb (fst existing) b) kvNamespaces in
            if exists_ then kvNamespaces
            else kvNamespaces ++ [(b +:+ " (" +:+ envName +:+ ")", i)]
        | None => kvNamespaces
        end
  end.

(** The loop over the environments. *)
Fixpoint collectEnvs (envs : list (string * EnvTable))
    (kvNamespaces : list (string * string)) : list (string * string) :=
  match envs with
  | [] => kvNamespaces
  | (envName, env) :: rest =>
      collectEnvs rest
        match env_kv_namespaces env with
        | Some nss => collectEnvNamespaces envName nss kvNamespaces
        | None => kvNamespaces
        end
  end.

(** The [kv_namespaces] of the configuration that [parse] returns. *)
Definition parsedKvNamespaces (parsed : ParsedConfig) : list (string * string) :=
  let kvNamespaces :=
    match parsed_kv_namespaces parsed with
    | Some nss => collectNamespaces nss []
    | None => []
    end in
  match parsed_env parsed with
  | Some envs => collectEnvs envs kvNamespaces
  | None => kvNamespaces
  end.

(** The namespace [p] comes from a table of an environment of [envs] whose
    binding [b] it carries with the name of the environment appended. *)
Definition from_env (envs : list (string * EnvTable)) (p : string * string)
    (b : string) : Prop :=
  ∃ envName env nss ns,
    (envName, env) ∈ envs
    ∧ env_kv_namespaces env = Some nss
    ∧ ns ∈ nss
    ∧ namespaceOf ns = Some (b, p.2)
    ∧ p.1 = b +:+ " (" +:+ envName +:+ ")".

(** A configuration with one top-level namespace and two environments, one
    of which repeats the top-level binding. *)
Definition sample_config : ParsedConfig :=
  {| parsed_name := Some "worker";
     parsed_kv_namespaces :=
       Some [ {| ns_binding := Some "CACHE"; ns_id := Some "N1" |};
              {| ns_binding := Some "BROKEN"; ns_id := None |} ];
     parsed_env :=
       Some [ ("dev", {| env_kv_namespaces :=
                           Some [ {| ns_binding := Some "CACHE"; ns_id := Some "N2" |};
                                  {| ns_binding := Some "SESSIONS"; ns_id := Some "N3" |} ] |});
              ("prod", {| env_kv_namespaces :=
                            Some [ {| ns_binding := Some "SESSIONS"; ns_id := Some "N4" |} ] |}) ] |}.

(** The count of matches agrees with the recorded search results: it is
    zero exactly when nothing is recorded, and no recorded set is empty. *)
Definition results_agree (totalMatches : nat) (t : KVTreeProvider) : Prop :=
  (totalMatches = 0%nat ↔ searchResults t = ∅)
  ∧ map_Forall (λ _ (ks : gset string), ks ≠ ∅) (searchResults t).

(** The run of a query method on a handle whose file does not open: the
    handle is created if none is cached, the statement is sent, and the
    promise is never settled. *)
Definition unanswered {A} (dbPath : string) (this : KVDataProvider) (q : Query)
    : Outcome A * KVDataProvider * list Event :=
  (Pending, opened dbPath this, open_trace dbPath this ++ [DbQuery dbPath q]).

(** The ready project when [db2.sqlite] cannot be opened (it is a directory,
    or a file the user may not read). *)
Definition host_db2_locked : Host :=
  {| host_disk := disk_ready; can_open p := negb (String.eqb p db2_path) |}.

(** * Properties *)

(** ** Properties of [fuzzyMatch] *)

Lemma chars_length (s : string) : List.length (chars s) = String.length s.
Proof. induction s as [|c s IH]; simpl; [done | by rewrite IH]. Qed.

Lemma chars_lookup (s : string) (i : nat) : chars s !! i = Js.at_ s i.
Proof.
  revert i. induction s as [|c s IH]; intros [|i]; simpl; auto.
Qed.

Lemma consume_nil_r (text : list ascii) : consume text [] = O.
Proof. by destruct text. Qed.

Lemma consume_le (text search : list ascii) :
  (consume text search ≤ List.length search)%nat.
Proof.
  revert search. induction text as [|c text IH]; intros [|q search]; simpl; try lia.
  case_decide.
  - specialize (IH search). lia.
  - specialize (IH (q :: search)). simpl in IH. lia.
Qed.

(** The loop computes [consume] on what is left of the two strings. *)
Lemma fuzzyMatch_loop_consume (text search : string) (fuel i searchIndex : nat) :
  (String.length text - i ≤ fuel)%nat →
  fuzzyMatch_loop fuel text search i searchIndex
  = (searchIndex + consume (drop i (chars text)) (drop searchIndex (chars search)))%nat.
Proof.
  revert i searchIndex.
  induction fuel as [|fuel IH]; intros i si Hfuel; simpl.
  - rewrite drop_ge by (rewrite chars_length; lia). simpl. lia.
  - destruct (Nat.ltb_spec i (String.length text)) as [Hi|Hi]; simpl.
    + destruct (Nat.ltb_spec si (String.length search)) as [Hsi|Hsi]; simpl.
      * destruct (lookup_lt_is_Some_2 (chars text) i) as [c Hc];
          [by rewrite chars_length|].
        destruct (lookup_lt_is_Some_2 (chars search) si) as [q Hq];
          [by rewrite chars_length|].
        rewrite (drop_S _ _ _ Hc), (drop_S _ _ _ Hq). simpl.
        rewrite <- !chars_lookup, Hc, Hq.
        rewrite IH by lia.
        case_bool_decide as Heq; case_decide as Heq'; simplify_eq; try lia.
        by rewrite (drop_S _ _ _ Hq).
      * rewrite (drop_ge (chars search)) by (rewrite chars_length; lia).
        rewrite consume_nil_r. lia.
    + rewrite drop_ge by (rewrite chars_length; lia). simpl. lia.
Qed.

Lemma fuzzyMatch_consume (text search : string) :
  fuzzyMatch text search = true ↔
  consume (chars text) (chars search) = List.length (chars search).
Proof.
  unfold fuzzyMatch. rewrite fuzzyMatch_loop_consume by lia.
  rewrite !drop_0, chars_length. simpl. apply Nat.eqb_eq.
Qed.

(** The greedy scan consumes all of [search] exactly when [search] is a
    subsequence of [text]. *)
Lemma consume_sublist (text search : list ascii) :
  consume text search = List.length search ↔ search `sublist_of` text.
Proof.
  revert search. induction text as [|c text IH]; intros [|q search]; simpl.
  - split; [constructor | done].
  - split; [done | intros Hs; inv Hs].
  - split; [intros _; apply sublist_nil_l | done].
  - case_decide as Heq.
    + subst q. split.
      * intros Hc. apply sublist_skip, IH. lia.
      * intros Hs. f_equal. apply IH.
        inv Hs; [done|]. etrans; [apply sublist_cons; reflexivity | eassumption].
    + split.
      * intros Hc. apply sublist_cons. apply IH. done.
      * intros Hs. inv Hs; [done..|]. by apply IH.
Qed.

(** C7: the fuzzy key match succeeds exactly when the query is a
    subsequence of the text (its characters appear in the text in order, not
    necessarily next to each other); the query "ab" matches "xaxbx" and
    matches neither "ba" nor "xx"; the empty query matches every text. *)
Theorem fuzzyMatch_subsequence :
  (∀ text search : string,
     fuzzyMatch text search = true ↔ chars search `sublist_of` chars text)
  ∧ fuzzyMatch "xaxbx" "ab" = true
  ∧ fuzzyMatch "ba" "ab" = false
  ∧ fuzzyMatch "xx" "ab" = false
  ∧ (∀ text : string, fuzzyMatch text "" = true).
Proof.
  assert (Hiff : ∀ text search : string,
            fuzzyMatch text search = true ↔ chars search `sublist_of` chars text).
  { intros text search. rewrite fuzzyMatch_consume. apply consume_sublist. }
  split; [exact Hiff|].
  repeat split; try reflexivity.
  intros text. apply Hiff. apply sublist_nil_l.
Qed.

(** ** Properties of the value preview *)


Lemma chars_substring (s : string) (n m : nat) :
  chars (String.substring n m s) = take m (drop n (chars s)).
Proof.
  revert n m. induction s as [|c s IH]; intros [|n] [|m]; simpl;
    rewrite ?IH, ?drop_0; auto.
Qed.

(** Within bounds [substring] is the slice from [a] up to [b]. *)
Lemma js_substring_slice (s : string) (a b : Z) :
  0 ≤ a → a ≤ b → b ≤ Js.length s →
  chars (Js.substring s a b)
  = take (Z.to_nat (b - a)) (drop (Z.to_nat a) (chars s)).
Proof.
  intros Ha Hab Hb. unfold Js.substring. rewrite chars_substring.
  do 2 f_equal; [|f_equal]; lia.
Qed.

(** No backslash followed by n is left after the replacement. *)
Lemma replace_backslash_n_head (e : ascii) (s : string) :
  chars (Js.replace_backslash_n (String e s)) !! 0%nat = Some e
  ∨ chars (Js.replace_backslash_n (String e s)) !! 0%nat = Some " "%char.
Proof.
  simpl. destruct s as [|f s]; simpl; [by left|].
  destruct (Ascii.eqb e "\" && Ascii.eqb f "n")%bool; simpl; auto.
Qed.

Lemma replace_backslash_n_clean (s : string) (i : nat) :
  ¬ (chars (Js.replace_backslash_n s) !! i = Some "\"%char
     ∧ chars (Js.replace_backslash_n s) !! S i = Some "n"%char).
Proof.
  remember (String.length s) as n eqn:Hn.
  revert s i Hn. induction (lt_wf n) as [n _ IH]; intros s i ->.
  destruct s as [|c [|e s]].
  - simpl. by intros [? _].
  - simpl. destruct i; by intros [_ ?].
  - change (Js.replace_backslash_n (String c (String e s)))
      with (if (Ascii.eqb c "\" && Ascii.eqb e "n")%bool
            then String " " (Js.replace_backslash_n s)
            else String c (Js.replace_backslash_n (String e s))).
    destruct (Ascii.eqb c "\" && Ascii.eqb e "n")%bool eqn:Hb.
    + destruct i as [|i]; [by intros [? _]|].
      apply (IH (String.length s)); [simpl; lia | done].
    + destruct i as [|i].
      * intros [Hc Hn]. change (chars (String c ?r) !! 1%nat) with (chars r !! 0%nat) in Hn.
        simpl in Hc. simplify_eq.
        destruct (replace_backslash_n_head e s) as [He|He];
          rewrite He in Hn; simplify_eq.
      * apply (IH (String.length (String e s))); [simpl; lia | done].
Qed.




(** ** Ordering of the listing *)

Lemma key_le_total : Total key_le.
Proof. intros e1 e2. unfold key_le. apply (total String.le). Qed.

Lemma key_le_trans : Transitive key_le.
Proof. intros e1 e2 e3. unfold key_le. apply (transitivity (R := String.le)). Qed.

Lemma string_le_ne_ltb (s1 s2 : string) :
  String.le s1 s2 → s1 ≠ s2 → String.ltb s1 s2 = true.
Proof.
  unfold String.le, String.leb, String.ltb. intros Hle Hne.
  destruct (String.compare s1 s2) eqn:Hc; try done.
  by apply String.compare_eq_iff in Hc.
Qed.

Lemma sorted_distinct_keys_ascending (es : list KVEntry) :
  StronglySorted key_le es → NoDup (key <$> es) → keys_ascending es.
Proof.
  unfold keys_ascending.
  induction 1 as [|e es Hs IH Hall]; intros Hnd; simpl; [constructor|].
  apply NoDup_cons in Hnd as [Hnotin Hnd].
  constructor; [by apply IH|].
  apply Forall_fmap, Forall_forall. intros e' Hin. simpl.
  apply string_le_ne_ltb.
  - by apply (proj1 (Forall_forall _ _) Hall).
  - intros Heq. apply Hnotin. rewrite Heq. by apply list_elem_of_fmap_2.
Qed.

(** The answer of SQLite to the ORDER BY statement on a table with
    distinct keys. *)
Lemma table_file_entries_ascending (rows : list KVEntry) :
  NoDup (key <$> rows) →
  ∃ es, select_entries (table_file rows) = QueryRows es
        ∧ es ≡ₚ rows ∧ keys_ascending es.
Proof.
  intros Hnd. exists (merge_sort key_le rows). split; [done|].
  split; [apply merge_sort_Permutation|].
  apply sorted_distinct_keys_ascending.
  - pose proof key_le_total. pose proof key_le_trans.
    apply StronglySorted_merge_sort; apply _.
  - by rewrite merge_sort_Permutation.
Qed.

(** ** The query methods *)

Section Queries.
Implicit Types (d : Disk) (this : KVDataProvider).

Lemma cache_ok_new : cache_ok new_provider.
Proof. apply map_Forall_empty. Qed.

Lemma cache_ok_opened dbPath this : cache_ok this → cache_ok (opened dbPath this).
Proof. intros Hok. unfold cache_ok, opened. simpl. by apply map_Forall_insert_2. Qed.

Lemma getDatabase_run dbPath (h : Host) this :
  cache_ok this →
  getDatabase dbPath h this
  = (Returned {| filename := dbPath |}, opened dbPath this, open_trace dbPath this).
Proof.
  intros Hok. unfold getDatabase, open_trace, opened, bind, get_fields. simpl.
  destruct (dbCache this !! dbPath) as [db|] eqn:Hdb; simpl.
  - pose proof (Hok _ _ Hdb) as Hf. simpl in Hf.
    destruct db as [f]. simpl in Hf. subst f.
    rewrite insert_id by done. by destruct this.
  - done.
Qed.

Lemma queryEntries_run dbPath d this :
  cache_ok this →
  queryEntries dbPath d this
  = (Returned match select_entries (sqlite d dbPath) with
              | QueryRows rows => rows
              | QueryError _ => []
              end,
     opened dbPath this,
     query_trace dbPath this SelectEntries (select_entries (sqlite d dbPath))
                 ErrorQueryingEntries).
Proof.
  intros Hok. unfold queryEntries, query_trace, bind at 1.
  rewrite getDatabase_run by done.
  unfold db_run, bind, disk, emit, ret, console_error, emit. simpl.
  destruct (select_entries (sqlite d dbPath)); simpl; by rewrite ?app_nil_r.
Qed.

Lemma getBlobId_run dbPath k d this :
  cache_ok this →
  getBlobId dbPath k d this
  = (Returned match select_blob_id (sqlite d dbPath) k with
              | QueryRows (Some b) => if Js.truthy b then Some b else None
              | _ => None
              end,
     opened dbPath this,
     query_trace dbPath this (SelectBlobId k) (select_blob_id (sqlite d dbPath) k)
                 (ErrorGettingBlobId k)).
Proof.
  intros Hok. unfold getBlobId, query_trace, bind at 1.
  rewrite getDatabase_run by done.
  unfold db_run, bind, disk, emit, ret, console_error, emit. simpl.
  destruct (select_blob_id (sqlite d dbPath) k) as [|[b|]]; simpl;
    by rewrite ?app_nil_r.
Qed.

Lemma getEntryCount_run dbPath d this :
  cache_ok this →
  getEntryCount dbPath d this
  = (Returned (entryCountOf (sqlite d dbPath)),
     opened dbPath this,
     query_trace dbPath this SelectCount (select_count (sqlite d dbPath))
                 ErrorGettingEntryCount).
Proof.
  intros Hok. unfold getEntryCount, query_trace, entryCountOf, bind at 1.
  rewrite getDatabase_run by done.
  unfold db_run, bind, disk, emit, ret, console_error, emit. simpl.
  destruct (select_count (sqlite d dbPath)) as [|[c|]]; simpl;
    rewrite ?app_nil_r; try done.
  destruct (Z.eqb_spec c 0) as [->|]; done.
Qed.

Lemma getSampleBlobIds_run dbPath limit d this :
  cache_ok this →
  getSampleBlobIds dbPath limit d this
  = (Returned (sampleOf (sqlite d dbPath) limit),
     opened dbPath this,
     query_trace dbPath this (SelectSample limit)
                 (select_sample (sqlite d dbPath) limit) ErrorGettingSampleBlobIds).
Proof.
  intros Hok. unfold getSampleBlobIds, query_trace, sampleOf, bind at 1.
  rewrite getDatabase_run by done.
  unfold db_run, bind, disk, emit, ret, console_error, emit. simpl.
  destruct (select_sample (sqlite d dbPath) limit); simpl; by rewrite ?app_nil_r.
Qed.

End Queries.

(** ** Probing the candidates *)

Section Probe.
Context `{NodeRuntime}.
Implicit Types (d : Disk) (this : KVDataProvider).

Lemma matchedCount_checked present sample :
  (matchedCount present sample =? List.length (checkedBlobIds present sample))%nat
  = forallb present sample.
Proof.
  induction sample as [|b rest IH]; simpl; [done|].
  destruct (present b); simpl; done.
Qed.

Lemma matchedCount_pos present sample :
  forallb present sample = true →
  (0 <? matchedCount present sample)%nat = negb (bool_decide (sample = [])).
Proof.
  destruct sample as [|b rest]; simpl; [done|].
  by destruct (present b).
Qed.

Lemma checkSampleBlobs_run nsBlobsPath sample matchCount checkedCount d this :
  checkSampleBlobs nsBlobsPath sample matchCount checkedCount d this
  = (Returned ((matchCount + matchedCount (blobPresent d nsBlobsPath) sample)%nat,
               (checkedCount
                + List.length (checkedBlobIds (blobPresent d nsBlobsPath) sample))%nat),
     this,
     (λ b, FsAccess (path_join [nsBlobsPath; b]))
       <$> checkedBlobIds (blobPresent d nsBlobsPath) sample).
Proof.
  revert matchCount checkedCount.
  induction sample as [|b rest IH]; intros m c; simpl.
  - unfold ret. by rewrite !Nat.add_0_r.
  - unfold bind at 1, try_catch, fs_access, bind, disk, emit, ret, throw. simpl.
    unfold blobPresent at 1 3 5. 
    destruct (accessible d (path_join [nsBlobsPath; b])) eqn:Hacc; simpl.
    + rewrite IH. simpl. by rewrite <- !Nat.add_succ_r.
    + by rewrite Nat.add_0_r, Nat.add_1_r.
Qed.

Lemma opened_opened dbPath this : opened dbPath (opened dbPath this) = opened dbPath this.
Proof. unfold opened, set_dbCache. simpl. by rewrite insert_insert_eq. Qed.

Lemma open_trace_opened dbPath this : open_trace dbPath (opened dbPath this) = [].
Proof. unfold open_trace, opened. simpl. by rewrite lookup_insert_eq. Qed.

Lemma checkDatabase_run miniflareDir nsBlobsPath namespaceId file d this :
  cache_ok this →
  checkDatabase miniflareDir nsBlobsPath namespaceId file d this
  = (Returned (if candidateMatches d nsBlobsPath (path_join [miniflareDir; file])
               then Some (path_join [miniflareDir; file]) else None),
     (if candidateMatches d nsBlobsPath (path_join [miniflareDir; file])
      then set_namespaceDbMapping
             (<[namespaceId := path_join [miniflareDir; file]]> (namespaceDbMapping this))
             (opened (path_join [miniflareDir; file]) this)
      else opened (path_join [miniflareDir; file]) this),
     checkDatabase_trace d this nsBlobsPath (path_join [miniflareDir; file])).
Proof.
  intros Hok. set (dbPath := path_join [miniflareDir; file]).
  unfold checkDatabase, checkDatabase_trace, candidateMatches, sampledBlobIds.
  fold dbPath. unfold try_catch, bind at 1.
  rewrite getEntryCount_run by done.
  destruct (entryCountOf (sqlite d dbPath) =? 0) eqn:Hcount.
  { unfold ret. by rewrite !app_nil_r. }
  unfold bind at 1. rewrite getSampleBlobIds_run by by apply cache_ok_opened.
  rewrite opened_opened.
  unfold bind at 1. rewrite checkSampleBlobs_run. simpl.
  rewrite matchedCount_checked.
  destruct (forallb (blobPresent d nsBlobsPath) (sampleOf (sqlite d dbPath) 3))
    eqn:Hall; simpl.
  - rewrite matchedCount_pos by done.
    destruct (sampleOf (sqlite d dbPath) 3) as [|b rest] eqn:Hsample; simpl.
    + by rewrite !app_nil_r.
    + unfold bind, get_fields, set_fields, ret. simpl in *. rewrite Hall.
      by rewrite !app_nil_r.
  - destruct (sampleOf (sqlite d dbPath) 3) as [|b rest] eqn:Hsample;
      [done|]. simpl in *. rewrite Hall. unfold ret. by rewrite !app_nil_r.
Qed.

Lemma query_trace_probe {A} dbPath this q (answer : QueryResult A) site :
  Forall probe_event (query_trace dbPath this q answer site).
Proof.
  unfold query_trace, open_trace.
  destruct (dbCache this !! dbPath), answer; repeat constructor.
Qed.

Lemma checkDatabase_trace_probe d this nsBlobsPath dbPath :
  Forall probe_event (checkDatabase_trace d this nsBlobsPath dbPath).
Proof.
  unfold checkDatabase_trace. apply Forall_app. split; [apply query_trace_probe|].
  destruct (entryCountOf (sqlite d dbPath) =? 0); [constructor|].
  apply Forall_app. split; [apply query_trace_probe|].
  apply Forall_fmap, Forall_true. by intros b.
Qed.

Lemma checkDatabase_trace_count d this nsBlobsPath dbPath :
  DbQuery dbPath SelectCount ∈ checkDatabase_trace d this nsBlobsPath dbPath.
Proof.
  unfold checkDatabase_trace, query_trace. rewrite !elem_of_app.
  left. right. apply elem_of_cons. by left.
Qed.

Lemma checkDatabase_trace_accessed d this nsBlobsPath dbPath :
  accessed (checkDatabase_trace d this nsBlobsPath dbPath)
  = (λ b, path_join [nsBlobsPath; b])
      <$> checkedBlobIds (blobPresent d nsBlobsPath) (sampledBlobIds (sqlite d dbPath)).
Proof.
  assert (Hq : ∀ A this' q (answer : QueryResult A) site,
            accessed (query_trace dbPath this' q answer site) = []).
  { intros A this' q answer site. unfold query_trace, open_trace, accessed.
    destruct (dbCache this' !! dbPath), answer; done. }
  unfold checkDatabase_trace, sampledBlobIds, accessed in *.
  rewrite omap_app, Hq. simpl.
  destruct (entryCountOf (sqlite d dbPath) =? 0); [done|].
  rewrite omap_app, Hq. simpl.
  induction (checkedBlobIds _ _) as [|b l IH]; [done|].
  rewrite !fmap_cons. simpl. f_equal. exact IH.
Qed.

(** The loop over the candidates: it returns the first candidate that
    matches, records it in the resolution cache, and has probed every
    candidate when it returns none. *)
Lemma checkDatabases_run miniflareDir nsBlobsPath namespaceId files d this :
  cache_ok this →
  ∃ this' tr,
    checkDatabases miniflareDir nsBlobsPath namespaceId files d this
    = (Returned (List.find (candidateMatches d nsBlobsPath)
                           ((λ file, path_join [miniflareDir; file]) <$> files)),
       this', tr)
    ∧ namespaceDbMapping this'
      = recorded namespaceId
          (List.find (candidateMatches d nsBlobsPath)
                     ((λ file, path_join [miniflareDir; file]) <$> files))
          (namespaceDbMapping this)
    ∧ cache_ok this'
    ∧ Forall probe_event tr
    ∧ (List.find (candidateMatches d nsBlobsPath)
                 ((λ file, path_join [miniflareDir; file]) <$> files) = None →
       ∀ file, file ∈ files →
         DbQuery (path_join [miniflareDir; file]) SelectCount ∈ tr).
Proof.
  revert this. induction files as [|file rest IH]; intros this Hok; simpl.
  - exists this, []. repeat split; auto. intros _ file Hin. inv Hin.
  - unfold bind at 1. rewrite checkDatabase_run by done.
    destruct (candidateMatches d nsBlobsPath (path_join [miniflareDir; file])) eqn:Hm.
    + eexists _, _. unfold ret. split; [reflexivity|]. simpl.
      repeat split; auto; try done.
      * by apply cache_ok_opened.
      * rewrite app_nil_r. apply checkDatabase_trace_probe.
    + destruct (IH (opened (path_join [miniflareDir; file]) this))
        as (this' & tr & Hrun & Hmap & Hok' & Hev & Hall);
        [by apply cache_ok_opened|].
      rewrite Hrun. eexists _, _. split; [reflexivity|].
      repeat split; auto.
      * apply Forall_app. split; [apply checkDatabase_trace_probe | done].
      * intros Hnone f Hin. apply elem_of_app.
        apply elem_of_cons in Hin as [->|Hin].
        -- left. apply checkDatabase_trace_count.
        -- right. by apply Hall.
Qed.

(** The probe: its result, what it leaves in the resolution cache, and
    what it looks at. *)
Lemma probeDatabases_run kvPath namespaceId d this :
  cache_ok this →
  ∃ this' tr,
    probeDatabases kvPath namespaceId d this
    = (Returned (probeResult d kvPath namespaceId), this', tr)
    ∧ namespaceDbMapping this'
      = recorded namespaceId (probeResult d kvPath namespaceId) (namespaceDbMapping this)
    ∧ cache_ok this'
    ∧ Forall probe_event tr
    ∧ (∀ files,
         accessible d (miniflareDirOf kvPath) = true →
         accessible d (nsBlobsPathOf kvPath namespaceId) = true →
         dir_entries d (miniflareDirOf kvPath) = Some files →
         FsReaddir (miniflareDirOf kvPath) ∈ tr
         ∧ (probeResult d kvPath namespaceId = None →
            ∀ file, file ∈ List.filter isSqliteFile files →
              DbQuery (path_join [miniflareDirOf kvPath; file]) SelectCount ∈ tr)).
Proof.
  intros Hok. unfold probeDatabases, probeResult.
  fold (miniflareDirOf kvPath). fold (nsBlobsPathOf kvPath namespaceId).
  set (mf := miniflareDirOf kvPath). set (blobs := nsBlobsPathOf kvPath namespaceId).
  unfold bind at 1, try_catch at 1, fs_access at 1, bind, disk, emit, ret, throw. simpl.
  destruct (accessible d mf) eqn:Hmf; simpl.
  - unfold try_catch at 1, fs_access at 1, bind, disk, emit, ret, throw,
      console_error, emit. simpl.
    destruct (accessible d blobs) eqn:Hblobs; simpl.
    + unfold try_catch, fs_readdir, bind, disk, emit, ret, throw, console_error, emit.
      simpl.
      destruct (dir_entries d mf) as [files|] eqn:Hdir; simpl.
      * destruct (checkDatabases_run mf blobs namespaceId
                    (List.filter isSqliteFile files) d this Hok)
          as (this' & tr & Hrun & Hmap & Hok' & Hev & Hall).
        rewrite Hrun. simpl. eexists _, _. split; [reflexivity|].
        unfold firstMatch. repeat split; auto.
        -- repeat constructor. done.
        -- set_solver.
        -- intros Hnone file Hin. simplify_eq.
           rewrite !elem_of_cons. do 3 right. by apply Hall.
      * exists this, [FsAccess mf; FsAccess blobs; FsReaddir mf;
                      ConsoleError (ErrorFindingDatabase namespaceId)].
        repeat split; auto; try done. repeat constructor.
    + exists this, [FsAccess mf; FsAccess blobs; ConsoleError (BlobsDirMissing blobs)].
      repeat split; auto; try done. repeat constructor.
  - unfold try_catch, fs_readdir, bind, disk, emit, ret, throw, console_error, emit.
    simpl.
    destruct (dir_entries d kvPath); simpl; eexists _, _;
      (split; [reflexivity|]); repeat split; auto; try done; repeat constructor.
Qed.

End Probe.

(** ** The resolution cache *)

Section Resolver.
Context `{NodeRuntime}.
Implicit Types (d : Disk) (this : KVDataProvider).

Lemma cache_ok_invalidated namespaceId cachedPath this :
  cache_ok this → cache_ok (invalidated namespaceId cachedPath this).
Proof. intros Hok. unfold cache_ok, invalidated. simpl. by apply map_Forall_delete. Qed.

Lemma checkCache_miss namespaceId d this :
  namespaceDbMapping this !! namespaceId = None →
  checkCache namespaceId d this = (Returned None, this, []).
Proof.
  intros Hnone. unfold checkCache, bind, get_fields. simpl. by rewrite Hnone.
Qed.

Lemma checkCache_hit namespaceId cachedPath d this :
  namespaceDbMapping this !! namespaceId = Some cachedPath →
  accessible d cachedPath = true →
  checkCache namespaceId d this = (Returned (Some cachedPath), this, [FsAccess cachedPath]).
Proof.
  intros Hsome Hacc.
  unfold checkCache, bind, get_fields, try_catch, fs_access, bind, disk, emit, ret.
  simpl. rewrite Hsome. simpl. by rewrite Hacc.
Qed.

Lemma checkCache_stale namespaceId cachedPath d this :
  namespaceDbMapping this !! namespaceId = Some cachedPath →
  accessible d cachedPath = false →
  checkCache namespaceId d this
  = (Returned None, invalidated namespaceId cachedPath this,
     FsAccess cachedPath :: close_trace cachedPath this).
Proof.
  intros Hsome Hacc.
  unfold checkCache, close_trace, invalidated, bind at 1, get_fields.
  rewrite Hsome.
  unfold try_catch at 1, fs_access, bind, disk, emit, ret, throw, set_fields,
    get_fields, db_close, try_catch, emit. simpl. rewrite Hacc. simpl.
  destruct (dbCache this !! cachedPath) as [db|] eqn:Hdb; simpl.
  - done.
  - rewrite (delete_id (dbCache this)) by done. done.
Qed.

(** Every resolution returns, keeps the handle cache well formed, and
    performs probe events only. *)
Lemma findDatabaseForNamespace_run kvPath namespaceId d this :
  cache_ok this →
  ∃ r this' tr,
    findDatabaseForNamespace kvPath namespaceId d this = (Returned r, this', tr)
    ∧ cache_ok this'
    ∧ Forall probe_event tr.
Proof.
  intros Hok. unfold findDatabaseForNamespace, bind at 1.
  destruct (namespaceDbMapping this !! namespaceId) as [cachedPath|] eqn:Hmap.
  - destruct (accessible d cachedPath) eqn:Hacc.
    + rewrite (checkCache_hit _ _ _ _ Hmap Hacc). unfold ret.
      eexists _, _, _. split; [reflexivity|]. split; [done|]. repeat constructor.
    + rewrite (checkCache_stale _ _ _ _ Hmap Hacc).
      destruct (probeDatabases_run kvPath namespaceId d
                  (invalidated namespaceId cachedPath this))
        as (this' & tr & Hrun & _ & Hok' & Hev & _);
        [by apply cache_ok_invalidated|].
      rewrite Hrun. eexists _, _, _. split; [reflexivity|]. split; [done|].
      apply Forall_app. split; [|done].
      unfold close_trace. destruct (dbCache this !! cachedPath); repeat constructor.
  - rewrite (checkCache_miss _ _ _ Hmap).
    destruct (probeDatabases_run kvPath namespaceId d this Hok)
      as (this' & tr & Hrun & _ & Hok' & Hev & _).
    rewrite Hrun. eexists _, _, _. split; [reflexivity|]. done.
Qed.

(** Without a usable cache entry the resolution is the probe. *)
Lemma findDatabaseForNamespace_probe kvPath namespaceId d this :
  cache_ok this →
  (∀ cachedPath, namespaceDbMapping this !! namespaceId = Some cachedPath →
                 accessible d cachedPath = false) →
  ∃ this' tr,
    findDatabaseForNamespace kvPath namespaceId d this
    = (Returned (probeResult d kvPath namespaceId), this', tr)
    ∧ namespaceDbMapping this'
      = recorded namespaceId (probeResult d kvPath namespaceId)
          (delete namespaceId (namespaceDbMapping this))
    ∧ cache_ok this'
    ∧ Forall probe_event tr
    ∧ (∀ files,
         accessible d (miniflareDirOf kvPath) = true →
         accessible d (nsBlobsPathOf kvPath namespaceId) = true →
         dir_entries d (miniflareDirOf kvPath) = Some files →
         FsReaddir (miniflareDirOf kvPath) ∈ tr
         ∧ (probeResult d kvPath namespaceId = None →
            ∀ file, file ∈ List.filter isSqliteFile files →
              DbQuery (path_join [miniflareDirOf kvPath; file]) SelectCount ∈ tr)).
Proof.
  intros Hok Hstale. unfold findDatabaseForNamespace, bind at 1.
  destruct (namespaceDbMapping this !! namespaceId) as [cachedPath|] eqn:Hmap.
  - rewrite (checkCache_stale _ _ _ _ Hmap (Hstale _ eq_refl)).
    destruct (probeDatabases_run kvPath namespaceId d
                (invalidated namespaceId cachedPath this))
      as (this' & tr & Hrun & Hrec & Hok' & Hev & Hfull);
      [by apply cache_ok_invalidated|].
    rewrite Hrun. eexists _, _. split; [reflexivity|].
    split; [done|]. split; [done|]. split.
    + apply Forall_app. split; [|done].
      constructor; [done|].
      unfold close_trace. destruct (dbCache this !! cachedPath); repeat constructor.
    + intros files Hmf Hblobs Hdir.
      destruct (Hfull files Hmf Hblobs Hdir) as [Hrd Hall]. split.
      * apply elem_of_app. by right.
      * intros Hnone file Hin. apply elem_of_app. right. by apply Hall.
  - rewrite (checkCache_miss _ _ _ Hmap).
    destruct (probeDatabases_run kvPath namespaceId d this Hok)
      as (this' & tr & Hrun & Hrec & Hok' & Hev & Hfull).
    rewrite Hrun. eexists _, _. split; [reflexivity|].
    rewrite (delete_id (namespaceDbMapping this)) by done. done.
Qed.

End Resolver.

(** ** The public methods *)

Section Public.
Context `{NodeRuntime}.
Implicit Types (d : Disk) (this : KVDataProvider).

Lemma probe_event_not_readFile e : probe_event e → ¬ is_readFile e.
Proof. destruct e; simpl; tauto. Qed.

Lemma probe_event_not_getValue e : probe_event e → ¬ is_getValue_call e.
Proof. destruct e; simpl; tauto. Qed.

Lemma query_trace_not_getValue {A} dbPath this q (answer : QueryResult A) site :
  Forall (λ e, ¬ is_getValue_call e) (query_trace dbPath this q answer site).
Proof.
  eapply Forall_impl; [apply query_trace_probe|]. apply probe_event_not_getValue.
Qed.

(** [getKVData] returns, and calls [getValue] nowhere. *)
Lemma getKVData_run workerPath namespaceId d this :
  cache_ok this →
  ∃ data this' tr,
    getKVData workerPath namespaceId d this = (Returned data, this', tr)
    ∧ namespace data = namespaceId
    ∧ cache_ok this'
    ∧ Forall (λ e, ¬ is_getValue_call e) tr.
Proof.
  intros Hok. unfold getKVData, bind at 1, emit. simpl. unfold bind at 1.
  destruct (findDatabaseForNamespace_run (kvPathOf workerPath) namespaceId d this Hok)
    as (r & this1 & tr1 & Hrun & Hok1 & Hev1).
  rewrite Hrun.
  assert (Hev1' : Forall (λ e, ¬ is_getValue_call e) tr1).
  { eapply Forall_impl; [exact Hev1|]. apply probe_event_not_getValue. }
  destruct r as [dbPath|].
  - unfold bind at 1. rewrite queryEntries_run by done. unfold ret.
    eexists _, _, _. split; [reflexivity|]. simpl. split; [done|].
    split; [by apply cache_ok_opened|].
    constructor; [by intros []|].
    rewrite app_nil_r. apply Forall_app. split; [done|].
    apply query_trace_not_getValue.
  - unfold console_warn, bind, emit, ret. simpl.
    eexists _, _, _. split; [reflexivity|]. simpl. split; [done|]. split; [done|].
    constructor; [by intros []|].
    apply Forall_app. split; [done|]. repeat constructor. by intros [].
Qed.

(** [getValue] returns; its trace starts with the record of the call and
    holds no other. *)
Lemma getValue_run workerPath namespaceId k d this :
  cache_ok this →
  ∃ v this' tr,
    getValue workerPath namespaceId k d this
    = (Returned v, this', CallGetValue workerPath namespaceId k :: tr)
    ∧ cache_ok this'
    ∧ Forall (λ e, ¬ is_getValue_call e) tr.
Proof.
  intros Hok. unfold getValue, bind at 1, emit. simpl. unfold bind at 1.
  destruct (findDatabaseForNamespace_run (kvPathOf workerPath) namespaceId d this Hok)
    as (r & this1 & tr1 & Hrun & Hok1 & Hev1).
  rewrite Hrun.
  assert (Hev1' : Forall (λ e, ¬ is_getValue_call e) tr1).
  { eapply Forall_impl; [exact Hev1|]. apply probe_event_not_getValue. }
  destruct r as [dbPath|].
  - unfold bind at 1. rewrite getBlobId_run by done.
    set (b := match select_blob_id (sqlite d dbPath) k with
              | QueryRows (Some b) => if Js.truthy b then Some b else None
              | _ => None
              end).
    destruct b as [b|].
    + unfold try_catch, fs_readFile, bind, disk, emit, ret, throw, console_error, emit.
      simpl.
      destruct (file_text d _); simpl;
        (eexists _, _, _; split; [reflexivity|]; split; [by apply cache_ok_opened|]);
        (apply Forall_app; split; [done|]);
        (apply Forall_app; split; [apply query_trace_not_getValue|]);
        repeat constructor; by intros [].
    + unfold console_warn, bind, emit, ret. simpl.
      eexists _, _, _. split; [reflexivity|]. split; [by apply cache_ok_opened|].
      apply Forall_app. split; [done|].
      apply Forall_app. split; [apply query_trace_not_getValue|].
      repeat constructor. by intros [].
  - unfold console_warn, bind, emit, ret. simpl.
    eexists _, _, _. split; [reflexivity|]. split; [done|].
    apply Forall_app. split; [done|]. repeat constructor. by intros [].
Qed.

End Public.

(** * The specified properties *)

(** C1: a probed candidate matches the namespace iff at least one
    content-reference id was sampled (up to three, none when the candidate
    is skipped or the sample query fails) and every sampled id exists under
    the blobs directory; the ids are looked up in order and the lookups stop
    at the first miss, so a candidate whose first sampled id is missing does
    not match whatever the later ids are, and a candidate with no sample
    never matches. *)
Theorem candidate_match_iff `{NodeRuntime}
    (miniflareDir nsBlobsPath namespaceId file : string)
    (d : Disk) (this : KVDataProvider) :
  cache_ok this →
  ∃ r this' tr,
    checkDatabase miniflareDir nsBlobsPath namespaceId file d this = (Returned r, this', tr)
    ∧ (r = Some (path_join [miniflareDir; file]) ∨ r = None)
    ∧ (r = Some (path_join [miniflareDir; file]) ↔
       sampledBlobIds (sqlite d (path_join [miniflareDir; file])) ≠ []
       ∧ ∀ b, b ∈ sampledBlobIds (sqlite d (path_join [miniflareDir; file])) →
              accessible d (path_join [nsBlobsPath; b]) = true)
    ∧ accessed tr
      = (λ b, path_join [nsBlobsPath; b])
          <$> checkedBlobIds (blobPresent d nsBlobsPath)
                (sampledBlobIds (sqlite d (path_join [miniflareDir; file])))
    ∧ (∀ b rest,
         sampledBlobIds (sqlite d (path_join [miniflareDir; file])) = b :: rest →
         accessible d (path_join [nsBlobsPath; b]) = false →
         r = None ∧ accessed tr = [path_join [nsBlobsPath; b]])
    ∧ (sampledBlobIds (sqlite d (path_join [miniflareDir; file])) = [] → r = None)
    ∧ (∀ rows,
         sqlite d (path_join [miniflareDir; file]) = table_file rows →
         sampledBlobIds (sqlite d (path_join [miniflareDir; file]))
         = blobId <$> take 3 rows).
Proof.
  intros Hok. set (dbPath := path_join [miniflareDir; file]).
  eexists _, _, _. split; [by apply checkDatabase_run|]. fold dbPath.
  rewrite checkDatabase_trace_accessed.
  assert (Hiff : candidateMatches d nsBlobsPath dbPath = true ↔
                 sampledBlobIds (sqlite d dbPath) ≠ []
                 ∧ ∀ b, b ∈ sampledBlobIds (sqlite d dbPath) →
                        accessible d (path_join [nsBlobsPath; b]) = true).
  { unfold candidateMatches.
    destruct (sampledBlobIds (sqlite d dbPath)) as [|b rest] eqn:Hs.
    - split; [done | by intros [? _]].
    - rewrite forallb_forall. split.
      + intros Hall. split; [done|]. intros b' Hin.
        apply (Hall b'). by apply list_elem_of_In.
      + intros [_ Hall] b' Hin. apply Hall. by apply list_elem_of_In. }
  split; [destruct (candidateMatches d nsBlobsPath dbPath); auto|].
  split.
  { rewrite <- Hiff. destruct (candidateMatches d nsBlobsPath dbPath); split; done. }
  split; [done|].
  split.
  { intros b rest Hs Hmiss. rewrite Hs. simpl. unfold blobPresent at 1.
    rewrite Hmiss. split; [|done].
    destruct (candidateMatches d nsBlobsPath dbPath); [|done].
    destruct (proj1 Hiff eq_refl) as [_ Hall]. rewrite Hs in Hall.
    rewrite (Hall b) in Hmiss; [done | by left]. }
  split.
  { intros Hs. destruct (candidateMatches d nsBlobsPath dbPath); [|done].
    destruct (proj1 Hiff eq_refl) as [Hne _]. done. }
  intros rows Hrows. rewrite Hrows. unfold sampledBlobIds, entryCountOf, sampleOf. simpl.
  destruct rows; done.
Qed.

Lemma candidate_match_iff_witness :
  cache_ok new_provider
  ∧ (∃ r this' tr,
       @checkDatabase simple_runtime mf_dir n1_blobs "N1" "db1.sqlite" disk_ready new_provider
       = (Returned r, this', tr)
       ∧ r = Some db1_path)
  ∧ (∃ r this' tr,
       @checkDatabase simple_runtime mf_dir n1_blobs "N1" "db2.sqlite" disk_ready new_provider
       = (Returned r, this', tr)
       ∧ r = None
       ∧ accessed tr = ["/p/.wrangler/state/v3/kv/N1/blobs/blob-x"]
       ∧ accessible disk_ready "/p/.wrangler/state/v3/kv/N1/blobs/blob-a" = true).
Proof.
  split; [apply map_Forall_empty|]. split.
  - destruct (@candidate_match_iff simple_runtime mf_dir n1_blobs "N1" "db1.sqlite"
                disk_ready new_provider)
      as (r & this' & tr & Hrun & _ & Hiff & _); [apply map_Forall_empty|].
    exists r, this', tr. split; [exact Hrun|].
    apply Hiff. split; [by vm_compute|].
    intros b Hb. vm_compute in Hb.
    repeat (apply elem_of_cons in Hb as [->|Hb]; [reflexivity|]).
    by apply elem_of_nil in Hb.
  - destruct (@candidate_match_iff simple_runtime mf_dir n1_blobs "N1" "db2.sqlite"
                disk_ready new_provider)
      as (r & this' & tr & Hrun & _ & _ & _ & Hmiss & _); [apply map_Forall_empty|].
    destruct (Hmiss "blob-x" ["blob-a"] eq_refl eq_refl) as [Hr Hacc].
    exists r, this', tr. split; [exact Hrun|]. split; [exact Hr|].
    split; [exact Hacc | reflexivity].
Defined.







(** On a host where the file opens, a query method does what it does on the
    disk of the host. *)
Lemma query_on_opened_file (dbPath k : string) (limit : nat) (h : Host)
    (this : KVDataProvider) :
  cache_ok this →
  can_open h dbPath = true →
  queryEntries dbPath h this = queryEntries dbPath (host_disk h) this
  ∧ getBlobId dbPath k h this = getBlobId dbPath k (host_disk h) this
  ∧ getEntryCount dbPath h this = getEntryCount dbPath (host_disk h) this
  ∧ getSampleBlobIds dbPath limit h this
    = getSampleBlobIds dbPath limit (host_disk h) this.
Proof.
  intros Hok Hopen.
  unfold queryEntries, getBlobId, getEntryCount, getSampleBlobIds.
  split_and!; unfold bind at 1; symmetry; unfold bind at 1;
    rewrite !getDatabase_run by done;
    unfold db_run, bind, host, emit, ret; simpl; rewrite ?Hopen.
  - by destruct (select_entries _).
  - by destruct (select_blob_id _ _) as [|[?|]].
  - by destruct (select_count _) as [|[?|]].
  - by destruct (select_sample _ _).
Qed.

(** On a host where the file does not open, no query method is answered. *)
Lemma query_on_unopened_file (dbPath k : string) (limit : nat) (h : Host)
    (this : KVDataProvider) :
  cache_ok this →
  can_open h dbPath = false →
  queryEntries dbPath h this = unanswered dbPath this SelectEntries
  ∧ getBlobId dbPath k h this = unanswered dbPath this (SelectBlobId k)
  ∧ getEntryCount dbPath h this = unanswered dbPath this SelectCount
  ∧ getSampleBlobIds dbPath limit h this = unanswered dbPath this (SelectSample limit).
Proof.
  intros Hok Hopen.
  unfold queryEntries, getBlobId, getEntryCount, getSampleBlobIds, unanswered.
  split_and!; unfold bind at 1; rewrite getDatabase_run by done;
    unfold db_run, bind, host, emit, never; simpl; rewrite Hopen; simpl;
    by rewrite ?app_nil_r.
Qed.

Lemma unanswered_not_logged {A} (dbPath : string) (this : KVDataProvider) (q : Query)
    (site : LogSite) :
  ConsoleError site ∉ (unanswered (A := A) dbPath this q).2.
Proof.
  unfold unanswered, open_trace. simpl.
  destruct (dbCache this !! dbPath); set_solver.
Qed.

(** C5: what a query method does when the query fails.  When the file of
    the handle opens and the statement fails, the method resolves as the
    design says: [queryEntries] to the empty list, [getBlobId] to null,
    [getEntryCount] to 0 and [getSampleBlobIds] to the empty list, and the
    failure is written to the error log.  When the file does not open, the
    method does not resolve at all: the handle is created and cached, the
    statement is sent, the promise stays pending and nothing is written to
    the error log; the [try] around the test of a candidate database does
    not end the wait, so the resolution that meets such a candidate stays
    pending too. *)
Theorem query_failure_outcomes `{NodeRuntime}
    (dbPath k : string) (limit : nat) (h : Host) (this : KVDataProvider) :
  cache_ok this →
  (can_open h dbPath = true →
   (∀ err, select_entries (sqlite (host_disk h) dbPath) = QueryError err →
      ∃ this' tr, queryEntries dbPath h this = (Returned [], this', tr)
                  ∧ ConsoleError ErrorQueryingEntries ∈ tr)
   ∧ (∀ err, select_blob_id (sqlite (host_disk h) dbPath) k = QueryError err →
        ∃ this' tr, getBlobId dbPath k h this = (Returned None, this', tr)
                    ∧ ConsoleError (ErrorGettingBlobId k) ∈ tr)
   ∧ (∀ err, select_count (sqlite (host_disk h) dbPath) = QueryError err →
        ∃ this' tr, getEntryCount dbPath h this = (Returned 0, this', tr)
                    ∧ ConsoleError ErrorGettingEntryCount ∈ tr)
   ∧ (∀ err, select_sample (sqlite (host_disk h) dbPath) limit = QueryError err →
        ∃ this' tr, getSampleBlobIds dbPath limit h this = (Returned [], this', tr)
                    ∧ ConsoleError ErrorGettingSampleBlobIds ∈ tr))
  ∧ (can_open h dbPath = false →
     queryEntries dbPath h this = unanswered dbPath this SelectEntries
     ∧ getBlobId dbPath k h this = unanswered dbPath this (SelectBlobId k)
     ∧ getEntryCount dbPath h this = unanswered dbPath this SelectCount
     ∧ getSampleBlobIds dbPath limit h this
       = unanswered dbPath this (SelectSample limit)
     ∧ (∀ q site, ConsoleError site ∉ (unanswered (A := unit) dbPath this q).2)
     ∧ ∀ miniflareDir nsBlobsPath namespaceId file,
         path_join [miniflareDir; file] = dbPath →
         checkDatabase miniflareDir nsBlobsPath namespaceId file h this
         = unanswered dbPath this SelectCount).
Proof.
  intros Hok. split; intros Hopen.
  - destruct (query_on_opened_file dbPath k limit h this Hok Hopen)
      as (-> & -> & -> & ->).
    repeat split; intros err Herr; eexists _, _.
    + rewrite queryEntries_run by done. rewrite Herr. split; [reflexivity|].
      unfold query_trace. set_solver.
    + rewrite getBlobId_run by done. rewrite Herr. split; [reflexivity|].
      unfold query_trace. set_solver.
    + rewrite getEntryCount_run by done. unfold entryCountOf. rewrite Herr.
      split; [reflexivity|]. unfold query_trace. set_solver.
    + rewrite getSampleBlobIds_run by done. unfold sampleOf. rewrite Herr.
      split; [reflexivity|]. unfold query_trace. set_solver.
  - destruct (query_on_unopened_file dbPath k limit h this Hok Hopen)
      as (Hentries & Hblob & Hcount & Hsample).
    do 4 (split; [done|]). split.
    + intros q site. apply unanswered_not_logged.
    + intros miniflareDir nsBlobsPath namespaceId file Hpath.
      unfold checkDatabase. rewrite Hpath.
      unfold try_catch, bind at 1. by rewrite Hcount.
Qed.

Lemma query_failure_outcomes_witness :
  (∃ this' tr,
     queryEntries db1_path disk_corrupt new_provider = (Returned [], this', tr)
     ∧ ConsoleError ErrorQueryingEntries ∈ tr)
  ∧ can_open host_db2_locked db2_path = false
  ∧ queryEntries db2_path host_db2_locked new_provider
    = (Pending, opened db2_path new_provider,
       [DbOpen db2_path; DbQuery db2_path SelectEntries])
  ∧ getBlobId db2_path "a" host_db2_locked new_provider
    = (Pending, opened db2_path new_provider,
       [DbOpen db2_path; DbQuery db2_path (SelectBlobId "a")])
  ∧ getEntryCount db2_path host_db2_locked new_provider
    = (Pending, opened db2_path new_provider,
       [DbOpen db2_path; DbQuery db2_path SelectCount])
  ∧ getSampleBlobIds db2_path 3 host_db2_locked new_provider
    = (Pending, opened db2_path new_provider,
       [DbOpen db2_path; DbQuery db2_path (SelectSample 3)])
  ∧ @getKVData simple_runtime "/p" "N1" host_db2_locked new_provider
    = (Pending, opened db2_path new_provider,
       [CallGetKVData "/p" "N1"; FsAccess mf_dir; FsAccess n1_blobs; FsReaddir mf_dir;
        DbOpen db2_path; DbQuery db2_path SelectCount])
  ∧ @getValue simple_runtime "/p" "N1" "a" host_db2_locked new_provider
    = (Pending, opened db2_path new_provider,
       [CallGetValue "/p" "N1" "a"; FsAccess mf_dir; FsAccess n1_blobs; FsReaddir mf_dir;
        DbOpen db2_path; DbQuery db2_path SelectCount])
  ∧ (@getKVData simple_runtime "/p" "N1" disk_ready new_provider).1.1
    = Returned {| namespace := "N1";
                  entries := [entry "a" "blob-a"; entry "b" "blob-b";
                              entry "c" "blob-c"] |}.
Proof.
  destruct (@query_failure_outcomes simple_runtime db1_path "a" 3 disk_corrupt
              new_provider (map_Forall_empty _))
    as [Hfails _].
  destruct (Hfails eq_refl) as (Hentries & _).
  split; [exact (Hentries "SQLITE_NOTADB" eq_refl)|].
  destruct (@query_failure_outcomes simple_runtime db2_path "a" 3 host_db2_locked
              new_provider (map_Forall_empty _))
    as [_ Hlocked].
  destruct (Hlocked eq_refl) as (Q1 & Q2 & Q3 & Q4 & _ & _).
  split; [reflexivity|].
  split; [exact Q1|]. split; [exact Q2|]. split; [exact Q3|]. split; [exact Q4|].
  split; [vm_compute; reflexivity|].
  split; vm_compute; reflexivity.
Defined.

(** C6: the listing of a database file whose table holds distinct keys is
    the rows of the table with the keys strictly ascending; keys inserted in
    the order b, a, c are listed as a, b, c. *)
Theorem queryEntries_keys_ascending
    (dbPath : string) (rows : list KVEntry) (d : Disk) (this : KVDataProvider) :
  cache_ok this →
  sqlite d dbPath = table_file rows →
  NoDup (key <$> rows) →
  ∃ es this' tr,
    queryEntries dbPath d this = (Returned es, this', tr)
    ∧ es ≡ₚ rows
    ∧ keys_ascending es.
Proof.
  intros Hok Hfile Hnd.
  destruct (table_file_entries_ascending rows Hnd) as (es & Hes & Hperm & Hasc).
  exists es. eexists _, _. rewrite queryEntries_run by done.
  rewrite Hfile, Hes. done.
Qed.

Lemma queryEntries_keys_ascending_witness :
  (key <$> db1_rows = ["b"; "a"; "c"])
  ∧ ∃ es this' tr,
      queryEntries db1_path disk_ready new_provider
      = (Returned es, this', tr)
      ∧ key <$> es = ["a"; "b"; "c"]
      ∧ es ≡ₚ db1_rows
      ∧ keys_ascending es.
Proof.
  split; [reflexivity|].
  destruct (queryEntries_keys_ascending db1_path db1_rows
              disk_ready new_provider)
    as (es & this' & tr & Hrun & Hperm & Hasc).
  - apply map_Forall_empty.
  - reflexivity.
  - refine (bool_decide_unpack _ _). vm_compute. exact I.
  - exists es, this', tr. split; [exact Hrun|]. split; [|split; assumption].
    assert (Hes : (queryEntries db1_path disk_ready new_provider).1.1
                  = Returned es) by (by rewrite Hrun).
    vm_compute in Hes. injection Hes as <-. reflexivity.
Defined.

(** C10: when the namespace resolves to a database and the row of the key
    holds the empty string as its blob id, [getValue] returns null exactly
    as it does when the key has no row: same result, same fields, same
    effects, and no blob file is read. *)
Theorem getValue_empty_blob_id `{NodeRuntime}
    (workerPath namespaceId k dbPath : string) (row : option string)
    (d : Disk) (this this1 : KVDataProvider) (tr1 : list Event) :
  cache_ok this →
  findDatabaseForNamespace (kvPathOf workerPath) namespaceId d this
  = (Returned (Some dbPath), this1, tr1) →
  select_blob_id (sqlite d dbPath) k = QueryRows row →
  row = Some "" ∨ row = None →
  getValue workerPath namespaceId k d this
  = (Returned None, opened dbPath this1,
     CallGetValue workerPath namespaceId k
     :: tr1 ++ open_trace dbPath this1
            ++ [DbQuery dbPath (SelectBlobId k); ConsoleWarn (NoBlobIdForKey k)])
  ∧ Forall (λ e, ¬ is_readFile e)
      (CallGetValue workerPath namespaceId k
       :: tr1 ++ open_trace dbPath this1
              ++ [DbQuery dbPath (SelectBlobId k); ConsoleWarn (NoBlobIdForKey k)]).
Proof.
  intros Hok Hfind Hrow Hcase.
  destruct (findDatabaseForNamespace_run (kvPathOf workerPath) namespaceId d this Hok)
    as (r & this' & tr' & Hrun & Hok1 & Hev1).
  rewrite Hfind in Hrun. injection Hrun as <- <- <-.
  split.
  - unfold getValue, bind at 1, emit. simpl. unfold bind at 1. rewrite Hfind.
    unfold bind at 1. rewrite getBlobId_run by done. rewrite Hrow.
    unfold query_trace, console_warn, bind, emit, ret.
    destruct Hcase as [-> | ->]; simpl; by rewrite <- !app_assoc.
  - constructor; [by intros []|].
    apply Forall_app. split.
    + eapply Forall_impl; [exact Hev1|]. intros e He.
      destruct e; simpl in *; tauto.
    + apply Forall_app. split.
      * unfold open_trace. destruct (dbCache this1 !! dbPath); repeat constructor.
        by intros [].
      * repeat constructor; by intros [].
Qed.

Lemma getValue_empty_blob_id_witness :
  @getValue simple_runtime "/p" "N1" "d" disk_empty_blob_id new_provider
  = (Returned None,
     opened db1_path
       (@findDatabaseForNamespace simple_runtime kv_dir "N1" disk_empty_blob_id
          new_provider).1.2,
     CallGetValue "/p" "N1" "d"
     :: (@findDatabaseForNamespace simple_runtime kv_dir "N1" disk_empty_blob_id
           new_provider).2
        ++ [DbQuery db1_path (SelectBlobId "d"); ConsoleWarn (NoBlobIdForKey "d")]).
Proof.
  refine (proj1 (@getValue_empty_blob_id simple_runtime "/p" "N1" "d" db1_path (Some "")
                   disk_empty_blob_id new_provider _ _ _ _ _ _)).
  - apply map_Forall_empty.
  - vm_compute. reflexivity.
  - reflexivity.
  - left. reflexivity.
Defined.

(** C4, as amended: without a usable cache entry for the namespace (none, or
    one whose path no longer exists), when the candidate directory or the
    blobs directory of the namespace is absent the resolution reports
    not-found, [getKVData] returns an empty list and [getValue] returns
    null, nothing being thrown.  With a cache entry whose path still exists
    the resolution returns that path without looking at the directories
    and [getKVData] lists that database. *)
Theorem not_provisioned_degrades `{NodeRuntime}
    (workerPath namespaceId k : string) (d : Disk) (this : KVDataProvider) :
  cache_ok this →
  accessible d (miniflareDirOf (kvPathOf workerPath)) = false
  ∨ accessible d (nsBlobsPathOf (kvPathOf workerPath) namespaceId) = false →
  ((∀ cachedPath, namespaceDbMapping this !! namespaceId = Some cachedPath →
                  accessible d cachedPath = false) →
   (∃ this' tr, findDatabaseForNamespace (kvPathOf workerPath) namespaceId d this
                = (Returned None, this', tr))
   ∧ (∃ this' tr, getKVData workerPath namespaceId d this
                  = (Returned {| namespace := namespaceId; entries := [] |}, this', tr))
   ∧ (∃ this' tr, getValue workerPath namespaceId k d this = (Returned None, this', tr)))
  ∧ (∀ cachedPath,
       namespaceDbMapping this !! namespaceId = Some cachedPath →
       accessible d cachedPath = true →
       findDatabaseForNamespace (kvPathOf workerPath) namespaceId d this
       = (Returned (Some cachedPath), this, [FsAccess cachedPath])
       ∧ ∃ this' tr,
           getKVData workerPath namespaceId d this
           = (Returned {| namespace := namespaceId;
                          entries := match select_entries (sqlite d cachedPath) with
                                     | QueryRows rows => rows
                                     | QueryError _ => []
                                     end |}, this', tr)).
Proof.
  intros Hok Habsent. split.
  - intros Hstale.
    destruct (findDatabaseForNamespace_probe (kvPathOf workerPath) namespaceId d this
                Hok Hstale)
      as (this' & tr & Hrun & _).
    assert (Hres : probeResult d (kvPathOf workerPath) namespaceId = None).
    { unfold probeResult. destruct Habsent as [-> | ->]; [done|].
      by rewrite andb_false_r. }
    rewrite Hres in Hrun.
    split; [by eexists _, _|]. split.
    + unfold getKVData, bind at 1, emit. simpl. unfold bind at 1. rewrite Hrun.
      unfold console_warn, bind, emit, ret. simpl. by eexists _, _.
    + unfold getValue, bind at 1, emit. simpl. unfold bind at 1. rewrite Hrun.
      unfold console_warn, bind, emit, ret. simpl. by eexists _, _.
  - intros cachedPath Hmap Hacc.
    assert (Hrun : findDatabaseForNamespace (kvPathOf workerPath) namespaceId d this
                   = (Returned (Some cachedPath), this, [FsAccess cachedPath])).
    { unfold findDatabaseForNamespace, bind.
      by rewrite (checkCache_hit _ _ _ _ Hmap Hacc). }
    split; [done|].
    unfold getKVData, bind at 1, emit. simpl. unfold bind at 1. rewrite Hrun.
    unfold bind at 1. rewrite queryEntries_run by done. unfold ret.
    by eexists _, _.
Qed.

Lemma not_provisioned_degrades_witness :
  (∃ this' tr, @getKVData simple_runtime "/p" "N1" disk_blobs_removed new_provider
               = (Returned {| namespace := "N1"; entries := [] |}, this', tr))
  ∧ (∃ this' tr, @getValue simple_runtime "/p" "N1" "a" disk_blobs_removed new_provider
                 = (Returned None, this', tr)).
Proof.
  destruct (@not_provisioned_degrades simple_runtime "/p" "N1" "a" disk_blobs_removed
              new_provider)
    as [Hcold _].
  - apply map_Forall_empty.
  - right. reflexivity.
  - destruct Hcold as (_ & Hdata & Hvalue).
    + intros cachedPath Hc. vm_compute in Hc. discriminate Hc.
    + split; [exact Hdata | exact Hvalue].
Defined.

(** C4 as stated fails: after one listing of the ready project the
    resolution cache holds the database of N1; once the blobs directory of
    N1 is removed, [getKVData] still lists the three entries. *)
Lemma blobs_dir_absent_cached_listing :
  ¬ (∀ (workerPath namespaceId : string) (d : Disk) (this : KVDataProvider),
       cache_ok this →
       accessible d (@nsBlobsPathOf simple_runtime
                       (@kvPathOf simple_runtime workerPath) namespaceId) = false →
       ∃ this' tr,
         @getKVData simple_runtime workerPath namespaceId d this
         = (Returned {| namespace := namespaceId; entries := [] |}, this', tr)).
Proof.
  intros Hclaim.
  destruct (Hclaim "/p" "N1" disk_blobs_removed warm_provider)
    as (this' & tr & Hrun).
  - unfold cache_ok. refine (bool_decide_unpack _ _). vm_compute. exact I.
  - reflexivity.
  - assert (Hentries :
      (@getKVData simple_runtime "/p" "N1" disk_blobs_removed warm_provider).1.1
      = Returned {| namespace := "N1"; entries := [] |}) by (by rewrite Hrun).
    vm_compute in Hentries. discriminate Hentries.
Qed.

(** ** Search *)

Section SearchProofs.
Context `{NodeRuntime}.
Implicit Types (d : Disk) (x : Extension).

Lemma on_data_run {A} (m : M KVDataProvider A) d x r p tr :
  m d (kvDataProvider x) = (r, p, tr) →
  on_data m d x = (r, {| treeProvider := treeProvider x; kvDataProvider := p |}, tr).
Proof. intros Hrun. unfold on_data, zoom. by rewrite Hrun. Qed.

Lemma fetches_nil term : fetches_unmatched_only term [].
Proof. intros wp ns k Hin. inv Hin. Qed.

Lemma fetches_app term tr1 tr2 :
  fetches_unmatched_only term tr1 → fetches_unmatched_only term tr2 →
  fetches_unmatched_only term (tr1 ++ tr2).
Proof.
  intros H1 H2 wp ns k Hin. apply elem_of_app in Hin as [Hin|Hin]; eauto.
Qed.

Lemma fetches_no_call term tr :
  Forall (λ e, ¬ is_getValue_call e) tr → fetches_unmatched_only term tr.
Proof.
  intros Hall wp ns k Hin. rewrite Forall_forall in Hall.
  destruct (Hall _ Hin). done.
Qed.

Lemma fetches_getValue term workerPath namespaceId k tr :
  fuzzyMatch (toLowerCase k) term = false →
  Forall (λ e, ¬ is_getValue_call e) tr →
  fetches_unmatched_only term (CallGetValue workerPath namespaceId k :: tr).
Proof.
  intros Hk Hall wp ns k' Hin. apply elem_of_cons in Hin as [Heq|Hin].
  - by simplify_eq.
  - by apply (fetches_no_call term tr Hall wp ns k').
Qed.

(** The loop of [performSearch] over the entries of a namespace. *)
Lemma searchEntries_run worker namespaceId entries matchingKeys totalMatches d x :
  cache_ok (kvDataProvider x) →
  ∃ r x' tr,
    searchEntries worker namespaceId entries matchingKeys totalMatches d x
    = (Returned r, x', tr)
    ∧ cache_ok (kvDataProvider x')
    ∧ treeProvider x' = treeProvider x
    ∧ fetches_unmatched_only (searchTerm (treeProvider x)) tr.
Proof.
  revert matchingKeys totalMatches x.
  induction entries as [|entry rest IH]; intros mk tm x Hok; simpl.
  - eexists _, _, _. split; [reflexivity|]. split; [done|]. split; [done|].
    apply fetches_nil.
  - unfold bind at 1, tree_fields, bind at 1, get_fields, ret. simpl.
    destruct (fuzzyMatch (toLowerCase (key entry)) (searchTerm (treeProvider x)))
      eqn:Hkey.
    + destruct (IH ({[key entry]} ∪ mk) (S tm) x Hok)
        as (r & x' & tr & Hrun & Hok' & Htree & Hfetch).
      rewrite Hrun. by eexists _, _, _.
    + destruct (getValue_run (path worker) namespaceId (key entry) d
                  (kvDataProvider x) Hok)
        as (v & p & tr1 & Hget & Hokp & Hev).
      unfold bind at 1, try_catch, bind at 1.
      rewrite (on_data_run _ _ _ _ _ _ Hget).
      set (x1 := {| treeProvider := treeProvider x; kvDataProvider := p |}).
      assert (Hstep : ∃ r1,
        match v with
        | Some v0 =>
            if Js.truthy v0 && Js.includes (toLowerCase v0) (searchTerm (treeProvider x))
            then ret ({[key entry]} ∪ mk, S tm)
            else ret (mk, tm)
        | None => ret (mk, tm)
        end d x1 = (Returned r1, x1, [])).
      { destruct v as [v0|]; [|by eexists].
        destruct (Js.truthy v0 && Js.includes _ _); by eexists. }
      destruct Hstep as [r1 Hstep]. unfold ret in Hstep. rewrite Hstep.
      destruct (IH r1.1 r1.2 x1 Hokp) as (r & x' & tr & Hrun & Hok' & Htree & Hfetch).
      rewrite Hrun. eexists _, _, _. split; [reflexivity|].
      split; [done|]. split; [done|].
      rewrite app_nil_r. simpl. 
      change (CallGetValue (path worker) namespaceId (key entry) :: tr1 ++ tr)
        with ((CallGetValue (path worker) namespaceId (key entry) :: tr1) ++ tr).
      apply fetches_app; [by apply fetches_getValue | done].
Qed.

Lemma update_tree_run (f : KVTreeProvider → KVTreeProvider) d x :
  update_tree f d x
  = (Returned tt,
     {| treeProvider := f (treeProvider x); kvDataProvider := kvDataProvider x |}, []).
Proof. done. Qed.

(** The body of the loop of [performSearch] over the namespaces. *)
Lemma searchNamespace_run worker ns totalMatches d x :
  cache_ok (kvDataProvider x) →
  ∃ r x' tr,
    searchNamespace worker ns totalMatches d x = (Returned r, x', tr)
    ∧ cache_ok (kvDataProvider x')
    ∧ searchTerm (treeProvider x') = searchTerm (treeProvider x)
    ∧ fetches_unmatched_only (searchTerm (treeProvider x)) tr.
Proof.
  intros Hok.
  assert (Hbody : ∃ r1 x1 tr1,
    try_catch
      (this <- tree_fields ;;
       entries <-
         match kvEntries this !! cacheKeyOf worker ns.2 with
         | Some entries => ret entries
         | None =>
             data <- on_data (getKVData (path worker) ns.2) ;;
             update_tree (λ t, set_kvEntries
                                 (<[cacheKeyOf worker ns.2 := entries data]> (kvEntries t)) t) ;;
             ret (entries data)
         end ;;
       searchEntries worker ns.2 entries ∅ totalMatches)
      (λ _, console_error (ErrorSearchingNamespace ns.2) ;; ret (∅, totalMatches)) d x
    = (Returned r1, x1, tr1)
    ∧ cache_ok (kvDataProvider x1)
    ∧ searchTerm (treeProvider x1) = searchTerm (treeProvider x)
    ∧ fetches_unmatched_only (searchTerm (treeProvider x)) tr1).
  { unfold try_catch, bind at 1, tree_fields, bind at 1, get_fields, ret. simpl.
    destruct (kvEntries (treeProvider x) !! cacheKeyOf worker ns.2) as [es|] eqn:Hes.
    - unfold bind. simpl.
      destruct (searchEntries_run worker ns.2 es ∅ totalMatches d x Hok)
        as (r & x' & tr & Hrun & Hok' & Htree & Hfetch).
      rewrite Hrun. eexists _, _, _. split; [reflexivity|].
      split; [done|]. split; [by rewrite Htree | done].
    - destruct (getKVData_run (path worker) ns.2 d (kvDataProvider x) Hok)
        as (data & p & tr0 & Hget & _ & Hokp & Hev).
      unfold bind at 1, bind at 1, bind at 1.
      rewrite (on_data_run _ _ _ _ _ _ Hget).
      rewrite update_tree_run. simpl.
      set (x2 := {| treeProvider := _; kvDataProvider := p |}).
      destruct (searchEntries_run worker ns.2 (entries data) ∅ totalMatches d x2 Hokp)
        as (r & x' & tr & Hrun & Hok' & Htree & Hfetch).
      rewrite Hrun. eexists _, _, _. split; [reflexivity|].
      split; [done|]. split; [by rewrite Htree|].
      rewrite !app_nil_r. apply fetches_app; [by apply fetches_no_call | done]. }
  destruct Hbody as (r1 & x1 & tr1 & Hrun & Hok1 & Hterm & Hfetch).
  unfold searchNamespace, bind at 1. rewrite Hrun.
  destruct (0 <? size r1.1)%nat.
  - unfold bind at 1. rewrite update_tree_run. unfold ret.
    eexists _, _, _. split; [reflexivity|]. simpl.
    split; [done|]. split; [done|]. by rewrite !app_nil_r.
  - unfold bind, ret. eexists _, _, _. split; [reflexivity|]. simpl.
    split; [done|]. split; [done|]. by rewrite !app_nil_r.
Qed.

Lemma searchNamespaces_run worker nss totalMatches d x :
  cache_ok (kvDataProvider x) →
  ∃ r x' tr,
    searchNamespaces worker nss totalMatches d x = (Returned r, x', tr)
    ∧ cache_ok (kvDataProvider x')
    ∧ searchTerm (treeProvider x') = searchTerm (treeProvider x)
    ∧ fetches_unmatched_only (searchTerm (treeProvider x)) tr.
Proof.
  revert totalMatches x. induction nss as [|ns rest IH]; intros tm x Hok; simpl.
  - eexists _, _, _. split; [reflexivity|]. split; [done|]. split; [done|].
    apply fetches_nil.
  - destruct (searchNamespace_run worker ns tm d x Hok)
      as (r1 & x1 & tr1 & Hrun1 & Hok1 & Hterm1 & Hfetch1).
    unfold bind. rewrite Hrun1.
    destruct (IH r1 x1 Hok1) as (r & x' & tr & Hrun & Hok' & Hterm & Hfetch).
    rewrite Hrun. eexists _, _, _. split; [reflexivity|].
    split; [done|]. split; [congruence|].
    apply fetches_app; [done|]. by rewrite <- Hterm1.
Qed.

Lemma searchWorkers_run ws totalMatches d x :
  cache_ok (kvDataProvider x) →
  ∃ r x' tr,
    searchWorkers ws totalMatches d x = (Returned r, x', tr)
    ∧ cache_ok (kvDataProvider x')
    ∧ searchTerm (treeProvider x') = searchTerm (treeProvider x)
    ∧ fetches_unmatched_only (searchTerm (treeProvider x)) tr.
Proof.
  revert totalMatches x. induction ws as [|worker rest IH]; intros tm x Hok; simpl.
  - eexists _, _, _. split; [reflexivity|]. split; [done|]. split; [done|].
    apply fetches_nil.
  - destruct (searchNamespaces_run worker (kvNamespaces worker) tm d x Hok)
      as (r1 & x1 & tr1 & Hrun1 & Hok1 & Hterm1 & Hfetch1).
    unfold bind. rewrite Hrun1.
    destruct (IH r1 x1 Hok1) as (r & x' & tr & Hrun & Hok' & Hterm & Hfetch).
    rewrite Hrun. eexists _, _, _. split; [reflexivity|].
    split; [done|]. split; [congruence|].
    apply fetches_app; [done|]. by rewrite <- Hterm1.
Qed.

(** [performSearch] returns, and fetches the value of no entry whose key
    fuzzy-matches the search term. *)
Lemma performSearch_run term showNotification d x :
  cache_ok (kvDataProvider x) →
  ∃ r x' tr,
    performSearch term showNotification d x = (Returned r, x', tr)
    ∧ cache_ok (kvDataProvider x')
    ∧ fetches_unmatched_only (toLowerCase term) tr.
Proof.
  intros Hok. unfold performSearch.
  unfold bind at 1. rewrite update_tree_run.
  unfold bind at 1. rewrite update_tree_run. simpl.
  set (x0 := {| treeProvider := _; kvDataProvider := kvDataProvider x |}).
  destruct (Js.truthy term); simpl.
  - unfold bind at 1, emit. unfold bind at 1, disk. unfold bind at 1.
    cbn [host_disk opening].
    destruct (searchWorkers_run (discovered d) 0 d x0 Hok)
      as (r & x' & tr & Hrun & Hok' & Hterm & Hfetch).
    rewrite Hrun. simpl in Hfetch.
    assert (Hui : ∀ u tr', fetches_unmatched_only (toLowerCase term) tr' →
              fetches_unmatched_only (toLowerCase term) (Ui u :: tr')).
    { intros u tr' Hf wp ns k Hin. apply elem_of_cons in Hin as [Heq|Hin];
        [done | by apply (Hf wp ns k)]. }
    unfold refresh, bind, emit, ret.
    destruct showNotification; [destruct (0 <? r)%nat|]; simpl;
      (eexists _, _, _; split; [reflexivity|]; split; [done|]);
      apply Hui; (apply fetches_app; [done|]);
      repeat apply Hui; apply fetches_nil.
  - unfold refresh, bind, emit, ret. simpl.
    eexists _, _, _. split; [reflexivity|]. split; [done|].
    intros wp ns k Hin. repeat (apply elem_of_cons in Hin as [Heq|Hin]; [done|]).
    inv Hin.
Qed.

(** The loop of the quick pick's search over the entries of a namespace
    fetches the value of every entry. *)
Lemma liveSearchEntries_run worker ns value entries results d x :
  cache_ok (kvDataProvider x) →
  ∃ r x' tr,
    liveSearchEntries worker ns value entries results d x = (Returned r, x', tr)
    ∧ cache_ok (kvDataProvider x')
    ∧ ∀ e, e ∈ entries → CallGetValue (path worker) ns.2 (key e) ∈ tr.
Proof.
  revert results x. induction entries as [|entry rest IH]; intros results x Hok; simpl.
  - eexists _, _, _. split; [reflexivity|]. split; [done|]. intros e He. inv He.
  - destruct (getValue_run (path worker) ns.2 (key entry) d (kvDataProvider x) Hok)
      as (v & p & tr1 & Hget & Hokp & Hev).
    unfold bind at 1, try_catch, bind at 1.
    rewrite (on_data_run _ _ _ _ _ _ Hget).
    set (x1 := {| treeProvider := treeProvider x; kvDataProvider := p |}).
    assert (Hstep : ∃ r1,
      match v with
      | Some c =>
          if Js.truthy c
          then ret (Js.includes (toLowerCase c) (toLowerCase value),
                    if Js.includes (toLowerCase c) (toLowerCase value)
                    then valuePreviewOf c value else "")
          else ret (false, "")
      | None => ret (false, "")
      end d x1 = (Returned r1, x1, [])).
    { destruct v as [c|]; [|by eexists]. destruct (Js.truthy c); by eexists. }
    destruct Hstep as [[valueMatch valuePreview] Hstep]. rewrite Hstep.
    match goal with
    | |- context [liveSearchEntries worker ns value rest ?res _ x1] =>
        destruct (IH res x1 Hokp) as (r & x' & tr & Hrun & Hok' & Hall)
    end.
    rewrite Hrun. eexists _, _, _. split; [reflexivity|]. split; [done|].
    intros e He. rewrite app_nil_r.
    apply elem_of_cons in He as [->|He].
    + apply elem_of_app. left. by left.
    + apply elem_of_app. right. by apply Hall.
Qed.

End SearchProofs.

(** C8, as amended: in [performSearch] the value of an entry is fetched
    only when its key does not fuzzy-match the search term; the search of
    the quick pick fetches the value of every entry it tests, whether the
    key matches or not. *)
Theorem search_value_fetches `{NodeRuntime}
    (term value : string) (showNotification : bool)
    (worker : WorkerProject) (ns : string * string)
    (entries : list KVEntry) (results : list QuickPickItem)
    (d : Disk) (x : Extension) :
  cache_ok (kvDataProvider x) →
  (∃ r x' tr,
     performSearch term showNotification d x = (Returned r, x', tr)
     ∧ ∀ workerPath namespaceId k,
         CallGetValue workerPath namespaceId k ∈ tr →
         fuzzyMatch (toLowerCase k) (toLowerCase term) = false)
  ∧ (∃ r x' tr,
       liveSearchEntries worker ns value entries results d x = (Returned r, x', tr)
       ∧ ∀ e, e ∈ entries → CallGetValue (path worker) ns.2 (key e) ∈ tr).
Proof.
  intros Hok. split.
  - destruct (performSearch_run term showNotification d x Hok)
      as (r & x' & tr & Hrun & _ & Hfetch).
    by exists r, x', tr.
  - destruct (liveSearchEntries_run worker ns value entries results d x Hok)
      as (r & x' & tr & Hrun & _ & Hall).
    by exists r, x', tr.
Qed.

Lemma search_value_fetches_witness :
  cache_ok (kvDataProvider new_extension)
  ∧ (∃ r x' tr,
       @performSearch simple_runtime "a" false disk_ready new_extension
       = (Returned r, x', tr)
       ∧ CallGetValue "/p" "N1" "a" ∉ tr)
  ∧ (∃ r x' tr,
       @liveSearchEntries simple_runtime cache_worker ("CACHE", "N1") "a" db1_rows []
         disk_ready new_extension
       = (Returned r, x', tr)
       ∧ CallGetValue "/p" "N1" "a" ∈ tr).
Proof.
  split; [apply map_Forall_empty|].
  destruct (@search_value_fetches simple_runtime "a" "a" false cache_worker
              ("CACHE", "N1") db1_rows [] disk_ready new_extension
              (map_Forall_empty _))
    as [(r1 & x1 & tr1 & Hrun1 & Hfetch) (r2 & x2 & tr2 & Hrun2 & Hall)].
  split.
  - exists r1, x1, tr1. split; [exact Hrun1|].
    intros Hin. apply Hfetch in Hin. vm_compute in Hin. discriminate Hin.
  - exists r2, x2, tr2. split; [exact Hrun2|].
    apply (Hall (entry "a" "blob-a")). apply elem_of_cons. right. by left.
Defined.

(** C8 as stated fails for the quick pick: its search fetches the value of
    the key "a" although the key fuzzy-matches the typed text "a". *)
Lemma liveSearch_fetches_matching_key :
  ¬ (∀ (value : string) (d : Disk) (x : Extension) (workerPath namespaceId k : string),
       cache_ok (kvDataProvider x) →
       CallGetValue workerPath namespaceId k ∈ (@liveSearch simple_runtime value d x).2 →
       fuzzyMatch (@toLowerCase simple_runtime k) (@toLowerCase simple_runtime value)
       = false).
Proof.
  intros Hclaim.
  assert (Hmatch : fuzzyMatch (@toLowerCase simple_runtime "a")
                              (@toLowerCase simple_runtime "a") = false).
  { apply (Hclaim "a" disk_ready new_extension "/p" "N1" "a").
    - apply map_Forall_empty.
    - apply list_elem_of_In. vm_compute.
      repeat (first [left; reflexivity | right]). }
  vm_compute in Hmatch. discriminate Hmatch.
Qed.

(** * Further properties *)

(** ** The life of the database handles *)

Section Handles.
Context `{NodeRuntime}.
Implicit Types (d : Disk) (this : KVDataProvider).

Lemma handle_run_app open tr1 tr2 :
  handle_run open (tr1 ++ tr2)
  = match handle_run open tr1 with
    | Some open' => handle_run open' tr2
    | None => None
    end.
Proof.
  revert open. induction tr1 as [|e tr1 IH]; intros open; simpl; [done|].
  destruct (handle_step open e); [apply IH | done].
Qed.

Lemma handles_ok_app this this1 this2 tr1 tr2 :
  handles_ok this this1 tr1 → handles_ok this1 this2 tr2 →
  handles_ok this this2 (tr1 ++ tr2).
Proof. unfold handles_ok. intros H1 H2. by rewrite handle_run_app, H1. Qed.

Lemma handles_ok_cons this this' e tr :
  (∀ open, handle_step open e = Some open) →
  handles_ok this this' tr → handles_ok this this' (e :: tr).
Proof. unfold handles_ok. intros He Htr. simpl. by rewrite He. Qed.

Lemma handles_ok_same this this' :
  dbCache this' = dbCache this → handles_ok this this' [].
Proof. unfold handles_ok. intros ->. done. Qed.

Lemma query_trace_handles {A} dbPath this q (answer : QueryResult A) site :
  handles_ok this (opened dbPath this) (query_trace dbPath this q answer site).
Proof.
  unfold handles_ok, query_trace, open_trace, opened. simpl.
  rewrite dom_insert_L.
  destruct (dbCache this !! dbPath) as [db|] eqn:Hdb; simpl.
  - assert (Hin : dbPath ∈ dom (dbCache this)) by by eapply elem_of_dom_2.
    rewrite decide_True by done.
    replace ({[dbPath]} ∪ dom (dbCache this)) with (dom (dbCache this)) by set_solver.
    by destruct answer.
  - assert (Hnotin : dbPath ∉ dom (dbCache this)) by by apply not_elem_of_dom.
    rewrite decide_False by done. rewrite decide_True by set_solver.
    by destruct answer.
Qed.

Lemma checkDatabase_trace_handles d this nsBlobsPath dbPath :
  handles_ok this (opened dbPath this) (checkDatabase_trace d this nsBlobsPath dbPath).
Proof.
  unfold checkDatabase_trace.
  eapply handles_ok_app; [apply query_trace_handles|].
  destruct (entryCountOf (sqlite d dbPath) =? 0); [by apply handles_ok_same|].
  rewrite <- (opened_opened dbPath this) at 2.
  eapply handles_ok_app; [apply query_trace_handles|].
  rewrite opened_opened.
  induction (checkedBlobIds _ _) as [|b l IH]; [by apply handles_ok_same|].
  rewrite fmap_cons. by apply handles_ok_cons.
Qed.

Lemma checkDatabases_handles miniflareDir nsBlobsPath namespaceId files d this :
  cache_ok this →
  ∃ r this' tr,
    checkDatabases miniflareDir nsBlobsPath namespaceId files d this = (Returned r, this', tr)
    ∧ cache_ok this'
    ∧ handles_ok this this' tr.
Proof.
  revert this. induction files as [|file rest IH]; intros this Hok; simpl.
  - exists None, this, []. split; [done|]. split; [done|]. by apply handles_ok_same.
  - unfold bind at 1. rewrite checkDatabase_run by done.
    pose proof (checkDatabase_trace_handles d this nsBlobsPath
                  (path_join [miniflareDir; file])) as Hone.
    destruct (candidateMatches d nsBlobsPath (path_join [miniflareDir; file])).
    + unfold ret. eexists _, _, _. split; [reflexivity|].
      split; [by apply cache_ok_opened|]. by rewrite app_nil_r.
    + destruct (IH (opened (path_join [miniflareDir; file]) this))
        as (r & this' & tr & Hrun & Hok' & Hh); [by apply cache_ok_opened|].
      rewrite Hrun. eexists _, _, _. split; [reflexivity|]. split; [done|].
      by eapply handles_ok_app.
Qed.

Lemma probeDatabases_handles kvPath namespaceId d this :
  cache_ok this →
  ∃ r this' tr,
    probeDatabases kvPath namespaceId d this = (Returned r, this', tr)
    ∧ cache_ok this'
    ∧ handles_ok this this' tr.
Proof.
  intros Hok. unfold probeDatabases.
  set (mf := path_join [kvPath; "miniflare-KVNamespaceObject"]).
  set (blobs := path_join [path_join [kvPath; namespaceId]; "blobs"]).
  unfold bind at 1, try_catch at 1, fs_access at 1, bind, disk, emit, ret, throw. simpl.
  destruct (accessible d mf) eqn:Hmf; simpl.
  - unfold try_catch at 1, fs_access at 1, bind, disk, emit, ret, throw,
      console_error, emit. simpl.
    destruct (accessible d blobs) eqn:Hblobs; simpl.
    + unfold try_catch, fs_readdir, bind, disk, emit, ret, throw, console_error, emit.
      simpl.
      destruct (dir_entries d mf) as [files|] eqn:Hdir; simpl.
      * destruct (checkDatabases_handles mf blobs namespaceId
                    (List.filter isSqliteFile files) d this Hok)
          as (r & this' & tr & Hrun & Hok' & Hh).
        rewrite Hrun. simpl. eexists _, _, _. split; [reflexivity|].
        split; [done|]. by repeat apply handles_ok_cons.
      * eexists _, _, _. split; [reflexivity|]. split; [done|].
        repeat (apply handles_ok_cons; [done|]). by apply handles_ok_same.
    + eexists _, _, _. split; [reflexivity|]. split; [done|].
      repeat (apply handles_ok_cons; [done|]). by apply handles_ok_same.
  - unfold try_catch, fs_readdir, bind, disk, emit, ret, throw, console_error, emit.
    simpl.
    destruct (dir_entries d kvPath); simpl; eexists _, _, _;
      (split; [reflexivity|]); (split; [done|]);
      repeat (apply handles_ok_cons; [done|]); by apply handles_ok_same.
Qed.

Lemma findDatabaseForNamespace_handles kvPath namespaceId d this :
  cache_ok this →
  ∃ r this' tr,
    findDatabaseForNamespace kvPath namespaceId d this = (Returned r, this', tr)
    ∧ cache_ok this'
    ∧ handles_ok this this' tr.
Proof.
  intros Hok. unfold findDatabaseForNamespace, bind at 1.
  destruct (namespaceDbMapping this !! namespaceId) as [cachedPath|] eqn:Hmap.
  - destruct (accessible d cachedPath) eqn:Hacc.
    + rewrite (checkCache_hit _ _ _ _ Hmap Hacc). unfold ret.
      eexists _, _, _. split; [reflexivity|]. split; [done|].
      apply handles_ok_cons; [done|]. by apply handles_ok_same.
    + rewrite (checkCache_stale _ _ _ _ Hmap Hacc).
      destruct (probeDatabases_handles kvPath namespaceId d
                  (invalidated namespaceId cachedPath this))
        as (r & this' & tr & Hrun & Hok' & Hh); [by apply cache_ok_invalidated|].
      rewrite Hrun. eexists _, _, _. split; [reflexivity|]. split; [done|].
      change (FsAccess cachedPath :: close_trace cachedPath this ++ tr)
        with ((FsAccess cachedPath :: close_trace cachedPath this) ++ tr).
      eapply handles_ok_app; [|exact Hh].
      apply handles_ok_cons; [done|].
      unfold handles_ok, close_trace, invalidated. simpl. rewrite dom_delete_L.
      destruct (dbCache this !! cachedPath) as [db|] eqn:Hdb; simpl.
      * rewrite (Hok _ _ Hdb).
        rewrite decide_True by by eapply elem_of_dom_2. done.
      * f_equal. apply not_elem_of_dom in Hdb. set_solver.
  - rewrite (checkCache_miss _ _ _ Hmap).
    destruct (probeDatabases_handles kvPath namespaceId d this Hok)
      as (r & this' & tr & Hrun & Hok' & Hh).
    rewrite Hrun. by eexists _, _, _.
Qed.

End Handles.

(** X1: from a well-formed provider, [getKVData] and [getValue] use the
    database handles with discipline: a file is opened only while no handle
    on it is cached, a statement is sent or a handle closed only while the
    handle is open, and when the method returns the handle cache holds
    exactly the handles that are open. *)
Theorem public_methods_handle_discipline `{NodeRuntime}
    (workerPath namespaceId k : string) (d : Disk) (this : KVDataProvider) :
  cache_ok this →
  (∃ data this' tr,
     getKVData workerPath namespaceId d this = (Returned data, this', tr)
     ∧ cache_ok this'
     ∧ handle_run (dom (dbCache this)) tr = Some (dom (dbCache this')))
  ∧ (∃ v this' tr,
       getValue workerPath namespaceId k d this = (Returned v, this', tr)
       ∧ cache_ok this'
       ∧ handle_run (dom (dbCache this)) tr = Some (dom (dbCache this'))).
Proof.
  intros Hok.
  destruct (findDatabaseForNamespace_handles (kvPathOf workerPath) namespaceId d this Hok)
    as (r & this1 & tr1 & Hrun & Hok1 & Hh1).
  split.
  - unfold getKVData, bind at 1, emit. simpl. unfold bind at 1. rewrite Hrun.
    destruct r as [dbPath|].
    + unfold bind at 1. rewrite queryEntries_run by done. unfold ret.
      eexists _, _, _. split; [reflexivity|]. split; [by apply cache_ok_opened|].
      apply (handles_ok_cons this); [done|]. rewrite app_nil_r.
      eapply handles_ok_app; [exact Hh1 | apply query_trace_handles].
    + unfold console_warn, bind, emit, ret. simpl.
      eexists _, _, _. split; [reflexivity|]. split; [done|].
      apply (handles_ok_cons this); [done|].
      eapply handles_ok_app; [exact Hh1|].
      apply handles_ok_cons; [done|]. by apply handles_ok_same.
  - unfold getValue, bind at 1, emit. simpl. unfold bind at 1. rewrite Hrun.
    destruct r as [dbPath|].
    + unfold bind at 1. rewrite getBlobId_run by done.
      set (b := match select_blob_id (sqlite d dbPath) k with
                | QueryRows (Some b) => if Js.truthy b then Some b else None
                | _ => None
                end).
      pose proof (query_trace_handles dbPath this1 (SelectBlobId k)
                    (select_blob_id (sqlite d dbPath) k) (ErrorGettingBlobId k)) as Hq.
      destruct b as [b|].
      * unfold try_catch, fs_readFile, bind, disk, emit, ret, throw, console_error, emit.
        simpl.
        destruct (file_text d _); simpl;
          (eexists _, _, _; split; [reflexivity|]; split; [by apply cache_ok_opened|]);
          (apply (handles_ok_cons this); [done|]);
          (eapply handles_ok_app; [exact Hh1|]);
          (eapply handles_ok_app; [exact Hq|]);
          repeat (apply handles_ok_cons; [done|]); by apply handles_ok_same.
      * unfold console_warn, bind, emit, ret. simpl.
        eexists _, _, _. split; [reflexivity|]. split; [by apply cache_ok_opened|].
        apply (handles_ok_cons this); [done|].
        eapply handles_ok_app; [exact Hh1|].
        eapply handles_ok_app; [exact Hq|].
        apply handles_ok_cons; [done|]. by apply handles_ok_same.
    + unfold console_warn, bind, emit, ret. simpl.
      eexists _, _, _. split; [reflexivity|]. split; [done|].
      apply (handles_ok_cons this); [done|].
      eapply handles_ok_app; [exact Hh1|].
      apply handles_ok_cons; [done|]. by apply handles_ok_same.
Qed.

Lemma public_methods_handle_discipline_witness :
  ∃ data this' tr,
    @getKVData simple_runtime "/p" "N1" disk_ready new_provider = (Returned data, this', tr)
    ∧ opens tr = [db2_path; db1_path]
    ∧ handle_run ∅ tr = Some (dom (dbCache this')).
Proof.
  destruct (@public_methods_handle_discipline simple_runtime "/p" "N1" "a" disk_ready
              new_provider (map_Forall_empty _))
    as [(data & this' & tr & Hrun & _ & Hh) _].
  exists data, this', tr. split; [exact Hrun|]. split.
  - assert (Htr : (@getKVData simple_runtime "/p" "N1" disk_ready new_provider).2 = tr)
      by (by rewrite Hrun).
    rewrite <- Htr. vm_compute. reflexivity.
  - exact Hh.
Defined.

(** ** [dispose] *)

Lemma closeAll_run (dbs : list Database) (d : Disk) (this : KVDataProvider) :
  closeAll dbs d this = (Returned tt, this, DbClose <$> (filename <$> dbs)).
Proof.
  induction dbs as [|db rest IH]; simpl; [done|].
  unfold bind, try_catch, db_close, emit. simpl. by rewrite IH.
Qed.

Lemma close_all_handles (paths : list string) :
  NoDup paths →
  handle_run (list_to_set paths) (DbClose <$> paths) = Some ∅.
Proof.
  induction 1 as [|p paths Hnotin Hnd IH]; simpl; [done|].
  rewrite decide_True by set_solver.
  replace (({[p]} ∪ list_to_set paths) ∖ {[p]}) with (list_to_set paths : gset string).
  - exact IH.
  - apply set_eq. intros q. rewrite elem_of_difference, elem_of_union,
      elem_of_singleton, elem_of_list_to_set.
    split; [|tauto]. intros Hq. split; [by right|]. by intros ->.
Qed.

Lemma cached_filenames (this : KVDataProvider) :
  cache_ok this →
  filename <$> (snd <$> map_to_list (dbCache this)) = (map_to_list (dbCache this)).*1.
Proof.
  intros Hok. rewrite <- list_fmap_compose. apply list_fmap_ext.
  intros i [p db] Hlook. simpl. apply list_elem_of_lookup_2 in Hlook.
  apply elem_of_map_to_list in Hlook. exact (Hok _ _ Hlook).
Qed.

(** X2: [dispose] closes the handle of every cached path, once each and
    nothing else, leaves no handle open, and empties both caches; on a
    provider with no handle it does nothing, so it can be run again. *)
Theorem dispose_closes_every_handle (d : Disk) (this : KVDataProvider) :
  cache_ok this →
  ∃ tr,
    dispose d this = (Returned tt, new_provider, tr)
    ∧ (∀ e, e ∈ tr ↔ ∃ p, e = DbClose p ∧ p ∈ dom (dbCache this))
    ∧ List.length tr = size (dbCache this)
    ∧ handle_run (dom (dbCache this)) tr = Some ∅
    ∧ dispose d new_provider = (Returned tt, new_provider, []).
Proof.
  intros Hok.
  exists (DbClose <$> (map_to_list (dbCache this)).*1).
  assert (Hdom : dom (dbCache this) = list_to_set (map_to_list (dbCache this)).*1).
  { apply leibniz_equiv, dom_alt. }
  split.
  { unfold dispose, bind at 1, get_fields. simpl. unfold bind at 1.
    rewrite closeAll_run. rewrite cached_filenames by done.
    unfold bind, set_fields, get_fields. simpl. by rewrite !app_nil_r. }
  split.
  { intros e. rewrite list_elem_of_fmap, Hdom. split.
    - intros (p & -> & Hp). exists p. split; [done|]. by apply elem_of_list_to_set.
    - intros (p & -> & Hp). exists p. split; [done|]. by apply elem_of_list_to_set in Hp. }
  split.
  { by rewrite !length_fmap, length_map_to_list. }
  split.
  { rewrite Hdom. apply close_all_handles, NoDup_fst_map_to_list. }
  unfold dispose, bind at 1, get_fields. simpl. unfold bind at 1.
  rewrite closeAll_run. simpl. rewrite map_to_list_empty. done.
Qed.

Lemma dispose_closes_every_handle_witness :
  ∃ tr,
    dispose disk_ready warm_provider = (Returned tt, new_provider, tr)
    ∧ DbClose db1_path ∈ tr
    ∧ DbClose db2_path ∈ tr
    ∧ List.length tr = 2%nat.
Proof.
  assert (Hok : cache_ok warm_provider).
  { unfold cache_ok. refine (bool_decide_unpack _ _). vm_compute. exact I. }
  destruct (dispose_closes_every_handle disk_ready warm_provider Hok)
    as (tr & Hrun & Hall & Hlen & _).
  exists tr. split; [exact Hrun|].
  assert (Hdom : ∀ p, is_Some (dbCache warm_provider !! p) → DbClose p ∈ tr).
  { intros p Hp. apply Hall. exists p. split; [reflexivity|]. by apply elem_of_dom. }
  split; [apply Hdom; vm_compute; eauto|].
  split; [apply Hdom; vm_compute; eauto|].
  rewrite Hlen. vm_compute. reflexivity.
Defined.

(** ** Candidate files *)

Lemma rev_app_append (s1 s2 acc : string) :
  String.rev_app (s1 +:+ s2) acc = String.rev_app s2 (String.rev_app s1 acc).
Proof.
  revert acc. induction s1 as [|c s1 IH]; intros acc; [done|].
  change (String c s1 +:+ s2) with (String c (s1 +:+ s2)). simpl. apply IH.
Qed.

Lemma rev_app_acc (s acc : string) :
  String.rev_app s acc = String.rev_app s "" +:+ acc.
Proof.
  revert acc. induction s as [|c s IH]; intros acc; [done|].
  simpl. rewrite (IH (String c acc)), (IH (String c "")).
  generalize (String.rev_app s ""). intros r.
  induction r as [|e r IHr]; [done|].
  change (String e r +:+ ?x) with (String e (r +:+ x)). by rewrite IHr.
Qed.

Lemma rev_append (s1 s2 : string) :
  String.rev (s1 +:+ s2) = String.rev s2 +:+ String.rev s1.
Proof. unfold String.rev. by rewrite rev_app_append, rev_app_acc. Qed.

Lemma prefix_append (s r : string) : String.prefix s (s +:+ r) = true.
Proof.
  induction s as [|c s IH]; [by destruct r|].
  change (String c s +:+ r) with (String c (s +:+ r)). simpl.
  destruct (ascii_dec c c); [exact IH | done].
Qed.

Lemma prefix_cons (a : ascii) (s : string) (b : ascii) (r : string) :
  String.prefix (String a s) (String b r)
  = if ascii_dec a b then String.prefix s r else false.
Proof. reflexivity. Qed.

Lemma endsWith_append (base suffix : string) :
  Js.endsWith (base +:+ suffix) suffix = true.
Proof. unfold Js.endsWith. rewrite rev_append. apply prefix_append. Qed.

(** X3: a file whose name ends in ".sqlite" is a candidate database, the
    write-ahead-log and shared-memory files beside it are not; the two
    further tests of the filter never reject a name that ends in ".sqlite". *)
Theorem isSqliteFile_primary_only :
  (∀ base, isSqliteFile (base +:+ ".sqlite") = true)
  ∧ (∀ base, isSqliteFile (base +:+ ".sqlite-wal") = false)
  ∧ (∀ base, isSqliteFile (base +:+ ".sqlite-shm") = false)
  ∧ (∀ f, isSqliteFile f = Js.endsWith f ".sqlite").
Proof.
  assert (Hsame : ∀ f, isSqliteFile f = Js.endsWith f ".sqlite").
  { intros f. unfold isSqliteFile, Js.endsWith.
    destruct (String.rev f) as [|c r]; [done|].
    change (String.rev ".sqlite") with "etilqs.".
    change (String.rev "-wal") with "law-".
    change (String.rev "-shm") with "mhs-".
    rewrite !(prefix_cons _ _ c r).
    destruct (ascii_dec "e" c) as [<-|Hne]; [|done].
    destruct (ascii_dec "l" "e") as [Hl|_]; [discriminate Hl|].
    destruct (ascii_dec "m" "e") as [Hm|_]; [discriminate Hm|].
    simpl. by rewrite !andb_true_r. }
  split; [intros base; rewrite Hsame; apply endsWith_append|].
  split.
  - intros base. rewrite Hsame. unfold Js.endsWith. rewrite rev_append.
    change (String.rev ".sqlite-wal") with "law-etilqs.".
    change (String.rev ".sqlite") with "etilqs.".
    change ("law-etilqs." +:+ String.rev base)
      with (String "l" ("aw-etilqs." +:+ String.rev base)).
    rewrite prefix_cons. by destruct (ascii_dec "e" "l").
  - split; [|exact Hsame].
    intros base. rewrite Hsame. unfold Js.endsWith. rewrite rev_append.
    change (String.rev ".sqlite-shm") with "mhs-etilqs.".
    change (String.rev ".sqlite") with "etilqs.".
    change ("mhs-etilqs." +:+ String.rev base)
      with (String "m" ("hs-etilqs." +:+ String.rev base)).
    rewrite prefix_cons. by destruct (ascii_dec "e" "m").
Qed.

(** ** Resolution *)

(** X4: once a resolution has returned a database path, the resolution
    cache maps the namespace id to it, and every later resolution of that
    namespace id returns the same path after the one check that the file
    still exists, with no probing and no change of the fields.  The cache is
    keyed by the namespace id alone: this holds whatever storage root the
    later call is given. *)
Theorem resolution_is_repeated_from_cache `{NodeRuntime}
    (kvPath namespaceId dbPath : string) (d : Disk)
    (this this' : KVDataProvider) (tr : list Event) :
  cache_ok this →
  findDatabaseForNamespace kvPath namespaceId d this = (Returned (Some dbPath), this', tr) →
  namespaceDbMapping this' !! namespaceId = Some dbPath
  ∧ ∀ kvPath' d',
      accessible d' dbPath = true →
      findDatabaseForNamespace kvPath' namespaceId d' this'
      = (Returned (Some dbPath), this', [FsAccess dbPath]).
Proof.
  intros Hok Hrun.
  assert (Hmap : namespaceDbMapping this' !! namespaceId = Some dbPath).
  { destruct (namespaceDbMapping this !! namespaceId) as [cachedPath|] eqn:Hc.
    - destruct (accessible d cachedPath) eqn:Hacc.
      + unfold findDatabaseForNamespace, bind in Hrun.
        rewrite (checkCache_hit _ _ _ _ Hc Hacc) in Hrun. unfold ret in Hrun.
        by simplify_eq.
      + destruct (findDatabaseForNamespace_probe kvPath namespaceId d this Hok)
          as (this2 & tr2 & Hrun2 & Hrec & _).
        { intros p Hp. by simplify_eq. }
        rewrite Hrun in Hrun2. injection Hrun2 as Hres <- <-.
        rewrite Hrec, <- Hres. apply lookup_insert_eq.
    - destruct (findDatabaseForNamespace_probe kvPath namespaceId d this Hok)
        as (this2 & tr2 & Hrun2 & Hrec & _).
      { intros p Hp. by simplify_eq. }
      rewrite Hrun in Hrun2. injection Hrun2 as Hres <- <-.
      rewrite Hrec, <- Hres. apply lookup_insert_eq. }
  split; [exact Hmap|].
  intros kvPath' d' Hacc. unfold findDatabaseForNamespace, bind.
  by rewrite (checkCache_hit _ _ _ _ Hmap Hacc).
Qed.

Lemma resolution_is_repeated_from_cache_witness :
  @findDatabaseForNamespace simple_runtime kv_dir "N1" disk_ready warm_provider
  = (Returned (Some db1_path), warm_provider, [FsAccess db1_path])
  ∧ @findDatabaseForNamespace simple_runtime "/other/.wrangler/state/v3/kv" "N1"
      disk_blobs_removed warm_provider
    = (Returned (Some db1_path), warm_provider, [FsAccess db1_path]).
Proof.
  destruct (@resolution_is_repeated_from_cache simple_runtime kv_dir "N1" db1_path
              disk_ready new_provider warm_provider
              (@findDatabaseForNamespace simple_runtime kv_dir "N1" disk_ready
                 new_provider).2)
    as [_ Hagain].
  - apply map_Forall_empty.
  - vm_compute. reflexivity.
  - split; apply Hagain; reflexivity.
Defined.



(** ** Values *)

(** X6: when the namespace resolves to a database whose row for the key
    holds a non-empty blob id, [getValue] reads the file of that id under
    the blobs directory of the namespace and returns its text unchanged;
    when the file cannot be read it logs the failure and returns null. *)
Theorem getValue_returns_blob_text `{NodeRuntime}
    (workerPath namespaceId k dbPath b : string)
    (d : Disk) (this this1 : KVDataProvider) (tr1 : list Event) :
  cache_ok this →
  findDatabaseForNamespace (kvPathOf workerPath) namespaceId d this
  = (Returned (Some dbPath), this1, tr1) →
  select_blob_id (sqlite d dbPath) k = QueryRows (Some b) →
  b ≠ "" →
  ∃ tr,
    getValue workerPath namespaceId k d this
    = (Returned (file_text d (path_join [kvPathOf workerPath; namespaceId; "blobs"; b])),
       opened dbPath this1, tr)
    ∧ FsReadFile (path_join [kvPathOf workerPath; namespaceId; "blobs"; b]) ∈ tr
    ∧ (file_text d (path_join [kvPathOf workerPath; namespaceId; "blobs"; b]) = None →
       ConsoleError
         (ErrorReadingBlob (path_join [kvPathOf workerPath; namespaceId; "blobs"; b]))
       ∈ tr).
Proof.
  intros Hok Hfind Hrow Hb.
  destruct (findDatabaseForNamespace_run (kvPathOf workerPath) namespaceId d this Hok)
    as (r & this' & tr' & Hrun & Hok1 & _).
  rewrite Hfind in Hrun. injection Hrun as <- <- <-.
  assert (Htruthy : Js.truthy b = true).
  { unfold Js.truthy. by destruct (String.eqb_spec b ""). }
  unfold getValue, bind at 1, emit. simpl. unfold bind at 1. rewrite Hfind.
  unfold bind at 1. rewrite getBlobId_run by done. rewrite Hrow, Htruthy.
  unfold try_catch, fs_readFile, bind, disk, emit, ret, throw, console_error, emit.
  simpl.
  destruct (file_text d (path_join [kvPathOf workerPath; namespaceId; "blobs"; b]));
    simpl; eexists; (split; [reflexivity|]); split; try done;
    rewrite ?app_nil_r; set_solver.
Qed.

Lemma getValue_returns_blob_text_witness :
  ∃ this' tr,
    @getValue simple_runtime "/p" "N1" "b" disk_ready new_provider
    = (Returned (Some "the quick brown fox jumps"), this', tr)
    ∧ FsReadFile "/p/.wrangler/state/v3/kv/N1/blobs/blob-b" ∈ tr.
Proof.
  destruct (@getValue_returns_blob_text simple_runtime "/p" "N1" "b" db1_path "blob-b"
              disk_ready new_provider
              (@findDatabaseForNamespace simple_runtime kv_dir "N1" disk_ready
                 new_provider).1.2
              (@findDatabaseForNamespace simple_runtime kv_dir "N1" disk_ready
                 new_provider).2)
    as (tr & Hrun & Hread & _).
  - apply map_Forall_empty.
  - vm_compute. reflexivity.
  - reflexivity.
  - discriminate.
  - eexists _, tr. split; [exact Hrun | exact Hread].
Defined.

(** ** Repeated calls *)

Section Repeat.
Context `{NodeRuntime}.
Implicit Types (d : Disk) (this : KVDataProvider).

(** A second resolution on an unchanged disk gives the result of the
    first. *)
Lemma findDatabaseForNamespace_again kvPath namespaceId d this r this' tr :
  cache_ok this →
  findDatabaseForNamespace kvPath namespaceId d this = (Returned r, this', tr) →
  cache_ok this'
  ∧ ∃ this'' tr',
      findDatabaseForNamespace kvPath namespaceId d this' = (Returned r, this'', tr').
Proof.
  intros Hok Hrun.
  destruct (findDatabaseForNamespace_run kvPath namespaceId d this Hok)
    as (r0 & this0 & tr0 & Hrun0 & Hok' & _).
  rewrite Hrun in Hrun0. injection Hrun0 as <- <- <-.
  split; [done|]. unfold results_agree.
  assert (Hprobe : ∀ this1, cache_ok this1 →
            (∀ p, namespaceDbMapping this1 !! namespaceId = Some p → accessible d p = false) →
            ∃ this2 tr2, findDatabaseForNamespace kvPath namespaceId d this1
                         = (Returned (probeResult d kvPath namespaceId), this2, tr2)).
  { intros this1 Hok1 Hstale1.
    destruct (findDatabaseForNamespace_probe kvPath namespaceId d this1 Hok1 Hstale1)
      as (this2 & tr2 & Hrun2 & _). by exists this2, tr2. }
  assert (Hcold : (∀ p, namespaceDbMapping this !! namespaceId = Some p →
                        accessible d p = false) →
                  ∃ this'' tr',
                    findDatabaseForNamespace kvPath namespaceId d this'
                    = (Returned r, this'', tr')).
  { intros Hstale.
    destruct (findDatabaseForNamespace_probe kvPath namespaceId d this Hok Hstale)
      as (this2 & tr2 & Hrun2 & Hrec & _).
    rewrite Hrun in Hrun2. injection Hrun2 as -> <- <-.
    destruct (probeResult d kvPath namespaceId) as [q|] eqn:Hres; simpl in Hrec.
    - destruct (accessible d q) eqn:Hq.
      + exists this', [FsAccess q]. unfold findDatabaseForNamespace, bind.
        rewrite (checkCache_hit namespaceId q); [done| |done].
        rewrite Hrec. apply lookup_insert_eq.
      + apply Hprobe; [done|].
        intros p. rewrite Hrec, lookup_insert_eq. by intros [= <-].
    - apply Hprobe; [done|].
      intros p. by rewrite Hrec, lookup_delete_eq. }
  destruct (namespaceDbMapping this !! namespaceId) as [cachedPath|] eqn:Hc.
  - destruct (accessible d cachedPath) eqn:Hacc.
    + unfold findDatabaseForNamespace, bind in Hrun.
      rewrite (checkCache_hit _ _ _ _ Hc Hacc) in Hrun. unfold ret in Hrun.
      injection Hrun as <- <- <-.
      exists this, [FsAccess cachedPath]. unfold findDatabaseForNamespace, bind.
      by rewrite (checkCache_hit _ _ _ _ Hc Hacc).
    + apply Hcold. intros p [= <-]. done.
  - apply Hcold. intros p Hp. done.
Qed.

(** The result of a resolution depends on the disk and on the resolution
    cache only. *)
Lemma findDatabaseForNamespace_mapping kvPath namespaceId d thisa thisb ra rb
    thisa' thisb' tra trb :
  cache_ok thisa → cache_ok thisb →
  namespaceDbMapping thisa = namespaceDbMapping thisb →
  findDatabaseForNamespace kvPath namespaceId d thisa = (Returned ra, thisa', tra) →
  findDatabaseForNamespace kvPath namespaceId d thisb = (Returned rb, thisb', trb) →
  ra = rb.
Proof.
  intros Hoka Hokb Hmap Ha Hb.
  unfold findDatabaseForNamespace, bind in Ha, Hb.
  destruct (namespaceDbMapping thisa !! namespaceId) as [p|] eqn:Hp.
  - destruct (accessible d p) eqn:Hacc.
    + rewrite (checkCache_hit namespaceId p d thisa) in Ha by done.
      rewrite (checkCache_hit namespaceId p d thisb) in Hb by (rewrite <- ?Hmap; done).
      unfold ret in Ha, Hb. congruence.
    + rewrite (checkCache_stale namespaceId p d thisa) in Ha by done.
      rewrite (checkCache_stale namespaceId p d thisb) in Hb by (rewrite <- ?Hmap; done).
      destruct (probeDatabases_run kvPath namespaceId d (invalidated namespaceId p thisa))
        as (ta & tra0 & Hra & _); [by apply cache_ok_invalidated|].
      destruct (probeDatabases_run kvPath namespaceId d (invalidated namespaceId p thisb))
        as (tb & trb0 & Hrb & _); [by apply cache_ok_invalidated|].
      rewrite Hra in Ha. rewrite Hrb in Hb. congruence.
  - rewrite (checkCache_miss namespaceId d thisa) in Ha by done.
    rewrite (checkCache_miss namespaceId d thisb) in Hb by (rewrite <- ?Hmap; done).
    destruct (probeDatabases_run kvPath namespaceId d thisa Hoka) as (ta & tra0 & Hra & _).
    destruct (probeDatabases_run kvPath namespaceId d thisb Hokb) as (tb & trb0 & Hrb & _).
    rewrite Hra in Ha. rewrite Hrb in Hb. congruence.
Qed.

Lemma getKVData_listing workerPath namespaceId d this r this1 tr1 :
  cache_ok this →
  findDatabaseForNamespace (kvPathOf workerPath) namespaceId d this = (Returned r, this1, tr1) →
  ∃ this' tr,
    getKVData workerPath namespaceId d this
    = (Returned (listingOf d namespaceId r), this', tr).
Proof.
  intros Hok Hfind.
  destruct (findDatabaseForNamespace_again _ _ _ _ _ _ _ Hok Hfind) as [Hok1 _].
  unfold getKVData, bind at 1, emit. simpl. unfold bind at 1. rewrite Hfind.
  destruct r as [dbPath|].
  - unfold bind at 1. rewrite queryEntries_run by done. unfold ret.
    by eexists _, _.
  - unfold console_warn, bind, emit, ret. simpl. by eexists _, _.
Qed.

End Repeat.

(** X7: on an unchanged disk a second [getKVData] for the same worker and
    namespace returns the data of the first, whether the first call probed
    the candidates or answered from the resolution cache. *)
Theorem getKVData_repeatable `{NodeRuntime}
    (workerPath namespaceId : string) (d : Disk)
    (this this' : KVDataProvider) (data : KVData) (tr : list Event) :
  cache_ok this →
  getKVData workerPath namespaceId d this = (Returned data, this', tr) →
  ∃ this'' tr',
    getKVData workerPath namespaceId d this' = (Returned data, this'', tr').
Proof.
  intros Hok Hrun.
  destruct (findDatabaseForNamespace_run (kvPathOf workerPath) namespaceId d this Hok)
    as (r & this1 & tr1 & Hfind & Hok1 & _).
  destruct (findDatabaseForNamespace_again _ _ _ _ _ _ _ Hok Hfind)
    as [_ (this2 & tr2 & Hfind2)].
  destruct (getKVData_listing workerPath namespaceId d this r this1 tr1 Hok Hfind)
    as (thisa & tra & Hruna).
  rewrite Hrun in Hruna. injection Hruna as -> <- <-.
  assert (Hok' : cache_ok this').
  { destruct (getKVData_run workerPath namespaceId d this Hok)
      as (data0 & this0 & tr0 & Hrun0 & _ & Hok0 & _).
    rewrite Hrun in Hrun0. by injection Hrun0 as <- <- <-. }
  (* the fields after [getKVData] resolve the namespace as those after the
     resolution alone: the listing changes the handle cache only *)
  assert (Hmap : namespaceDbMapping this' = namespaceDbMapping this1).
  { revert Hrun. unfold getKVData, bind at 1, emit. simpl. unfold bind at 1.
    rewrite Hfind. destruct r as [dbPath|].
    - unfold bind at 1. rewrite queryEntries_run by done. unfold ret.
      intros Heq. by simplify_eq.
    - unfold console_warn, bind, emit, ret. simpl. intros Heq. by simplify_eq. }
  destruct (findDatabaseForNamespace_run (kvPathOf workerPath) namespaceId d this' Hok')
    as (r' & this3 & tr3 & Hfind3 & _).
  assert (Hsame : r' = r).
  { by apply (findDatabaseForNamespace_mapping (kvPathOf workerPath) namespaceId d
                this' this1 r' r this3 this2 tr3 tr2). }
  subst r'.
  apply (getKVData_listing workerPath namespaceId d this' r this3 tr3 Hok' Hfind3).
Qed.

Lemma getKVData_repeatable_witness :
  ∃ data this' tr this'' tr',
    @getKVData simple_runtime "/p" "N1" disk_ready new_provider = (Returned data, this', tr)
    ∧ @getKVData simple_runtime "/p" "N1" disk_ready this' = (Returned data, this'', tr')
    ∧ key <$> entries data = ["a"; "b"; "c"].
Proof.
  pose (run := @getKVData simple_runtime "/p" "N1" disk_ready new_provider).
  assert (Hrun : run = (Returned (listingOf disk_ready "N1" (Some db1_path)),
                        run.1.2, run.2)).
  { vm_compute. reflexivity. }
  destruct (@getKVData_repeatable simple_runtime "/p" "N1" disk_ready new_provider
              run.1.2 (listingOf disk_ready "N1" (Some db1_path)) run.2
              (map_Forall_empty _) Hrun)
    as (this'' & tr' & Hagain).
  exists (listingOf disk_ready "N1" (Some db1_path)), run.1.2, run.2, this'', tr'.
  split; [exact Hrun|]. split; [exact Hagain|]. vm_compute. reflexivity.
Defined.

(** ** Results of the searches *)

(** X8: the quick pick's search over the entries of a namespace appends
    items to the results, at most one per entry and in the order of the
    entries; every entry whose key fuzzy-matches the typed text gets an
    item; each item names its worker, namespace and key, and an item without
    a value preview is one whose key fuzzy-matches. *)
Theorem liveSearchEntries_items `{NodeRuntime}
    (worker : WorkerProject) (ns : string * string) (value : string)
    (entries : list KVEntry) (results : list QuickPickItem)
    (d : Disk) (x : Extension) :
  cache_ok (kvDataProvider x) →
  ∃ added x' tr,
    liveSearchEntries worker ns value entries results d x
    = (Returned (results ++ added), x', tr)
    ∧ cache_ok (kvDataProvider x')
    ∧ (_key <$> added) `sublist_of` (key <$> entries)
    ∧ (∀ e, e ∈ entries →
         fuzzyMatch (toLowerCase (key e)) (toLowerCase value) = true →
         key e ∈ _key <$> added)
    ∧ Forall (item_of_search worker ns value) added.
Proof.
  revert results x. induction entries as [|entry rest IH]; intros results x Hok; simpl.
  - exists [], x, []. rewrite app_nil_r. split; [done|]. split; [done|].
    split; [constructor|]. split; [|constructor]. intros e He. inv He.
  - destruct (getValue_run (path worker) ns.2 (key entry) d (kvDataProvider x) Hok)
      as (v & p & tr1 & Hget & Hokp & Hev).
    unfold bind at 1, try_catch, bind at 1.
    rewrite (on_data_run _ _ _ _ _ _ Hget).
    set (x1 := {| treeProvider := treeProvider x; kvDataProvider := p |}).
    assert (Hstep : ∃ r1,
      match v with
      | Some c =>
          if Js.truthy c
          then ret (Js.includes (toLowerCase c) (toLowerCase value),
                    if Js.includes (toLowerCase c) (toLowerCase value)
                    then valuePreviewOf c value else "")
          else ret (false, "")
      | None => ret (false, "")
      end d x1 = (Returned r1, x1, [])).
    { destruct v as [c|]; [|by eexists]. destruct (Js.truthy c); by eexists. }
    destruct Hstep as [[valueMatch valuePreview] Hstep]. rewrite Hstep.
    set (keyMatch := fuzzyMatch (toLowerCase (key entry)) (toLowerCase value)).
    set (item := {| label := "$(key) " +:+ key entry;
                    description := name worker +:+ " / " +:+ ns.1;
                    detail := if valueMatch then Some ("Value: " +:+ valuePreview)
                              else None;
                    _worker := worker; _namespaceId := ns.2; _key := key entry |}).
    destruct (IH (if (keyMatch || valueMatch)%bool then results ++ [item] else results)
                 x1 Hokp)
      as (added & x' & tr & Hrun & Hok' & Hsub & Hall & Hitems).
    rewrite Hrun.
    exists ((if (keyMatch || valueMatch)%bool then [item] else []) ++ added), x'.
    eexists. split.
    { destruct (keyMatch || valueMatch)%bool; simpl; [|reflexivity].
      by rewrite <- app_assoc. }
    split; [done|]. split.
    { destruct (keyMatch || valueMatch)%bool; simpl.
      - by apply sublist_skip.
      - by apply sublist_cons. }
    split.
    { intros e He Hm. apply elem_of_cons in He as [->|He].
      - fold keyMatch in Hm. rewrite Hm. simpl. by left.
      - rewrite fmap_app. apply elem_of_app. right. by apply Hall. }
    apply Forall_app. split; [|done].
    destruct (keyMatch || valueMatch)%bool eqn:Hor; [|constructor].
    constructor; [|constructor].
    unfold item_of_search, item. simpl. repeat split.
    intros Hdetail. destruct valueMatch; [done|]. by rewrite orb_false_r in Hor.
Qed.

Lemma liveSearchEntries_items_witness :
  ∃ added x' tr,
    @liveSearchEntries simple_runtime cache_worker ("CACHE", "N1") "b" db1_rows []
      disk_ready new_extension
    = (Returned added, x', tr)
    ∧ "b" ∈ _key <$> added.
Proof.
  destruct (@liveSearchEntries_items simple_runtime cache_worker ("CACHE", "N1") "b"
              db1_rows [] disk_ready new_extension (map_Forall_empty _))
    as (added & x' & tr & Hrun & _ & _ & Hall & _).
  exists added, x', tr. split; [exact Hrun|].
  apply (Hall (entry "b" "blob-b")); [by left | reflexivity].
Defined.

Section TreeSearch.
Context `{NodeRuntime}.
Implicit Types (d : Disk) (x : Extension).

(** The keys the loop of [performSearch] collects for a namespace. *)
Lemma searchEntries_keys worker namespaceId entries matchingKeys totalMatches d x :
  cache_ok (kvDataProvider x) →
  ∃ r x' tr,
    searchEntries worker namespaceId entries matchingKeys totalMatches d x
    = (Returned r, x', tr)
    ∧ cache_ok (kvDataProvider x')
    ∧ treeProvider x' = treeProvider x
    ∧ matchingKeys ⊆ r.1
    ∧ (∀ e, e ∈ entries →
         fuzzyMatch (toLowerCase (key e)) (searchTerm (treeProvider x)) = true →
         key e ∈ r.1)
    ∧ (∀ k, k ∈ r.1 → k ∈ matchingKeys ∨ k ∈ key <$> entries)
    ∧ (totalMatches ≤ r.2 ≤ totalMatches + List.length entries)%nat.
Proof.
  revert matchingKeys totalMatches x.
  induction entries as [|entry rest IH]; intros mk tm x Hok; simpl.
  - eexists _, _, _. split; [reflexivity|]. simpl.
    repeat split; auto; try lia. intros e He. inv He.
  - unfold bind at 1, tree_fields, bind at 1, get_fields, ret. simpl.
    destruct (fuzzyMatch (toLowerCase (key entry)) (searchTerm (treeProvider x)))
      eqn:Hkey.
    + destruct (IH ({[key entry]} ∪ mk) (S tm) x Hok)
        as (r & x' & tr & Hrun & Hok' & Htree & Hsub & Hall & Hsound & Hcount).
      rewrite Hrun. eexists _, _, _. split; [reflexivity|].
      split; [done|]. split; [done|]. split; [set_solver|]. split.
      * intros e He Hm. apply elem_of_cons in He as [->|He]; [set_solver | by apply Hall].
      * split; [|lia]. intros k Hk. destruct (Hsound k Hk) as [Hin|Hin].
        -- apply elem_of_union in Hin as [Hin|Hin]; [|by left].
           right. apply elem_of_singleton in Hin as ->. by left.
        -- right. by right.
    + destruct (getValue_run (path worker) namespaceId (key entry) d
                  (kvDataProvider x) Hok)
        as (v & p & tr1 & Hget & Hokp & Hev).
      unfold bind at 1, try_catch, bind at 1.
      rewrite (on_data_run _ _ _ _ _ _ Hget).
      set (x1 := {| treeProvider := treeProvider x; kvDataProvider := p |}).
      assert (Hstep : ∃ r1,
        match v with
        | Some v0 =>
            if Js.truthy v0 && Js.includes (toLowerCase v0) (searchTerm (treeProvider x))
            then ret ({[key entry]} ∪ mk, S tm)
            else ret (mk, tm)
        | None => ret (mk, tm)
        end d x1 = (Returned r1, x1, [])
        ∧ (r1 = (mk, tm) ∨ r1 = ({[key entry]} ∪ mk, S tm))).
      { destruct v as [v0|]; [|by eexists; split; [|left]].
        destruct (Js.truthy v0 && Js.includes _ _);
          eexists; (split; [reflexivity|]); auto. }
      destruct Hstep as (r1 & Hstep & Hr1). unfold ret in Hstep. rewrite Hstep.
      destruct (IH r1.1 r1.2 x1 Hokp)
        as (r & x' & tr & Hrun & Hok' & Htree & Hsub & Hall & Hsound & Hcount).
      rewrite Hrun. eexists _, _, _. split; [reflexivity|].
      split; [done|]. split; [done|].
      destruct Hr1 as [-> | ->]; simpl in *.
      * split; [done|]. split.
        -- intros e He Hm. apply elem_of_cons in He as [->|He]; [congruence|].
           by apply Hall.
        -- split; [|lia]. intros k Hk. destruct (Hsound k Hk); [by left|].
           right. by right.
      * split; [set_solver|]. split.
        -- intros e He Hm. apply elem_of_cons in He as [->|He]; [congruence|].
           by apply Hall.
        -- split; [|lia]. intros k Hk. destruct (Hsound k Hk) as [Hin|Hin].
           ++ apply elem_of_union in Hin as [Hin|Hin]; [|by left].
              right. apply elem_of_singleton in Hin as ->. by left.
           ++ right. by right.
Qed.

End TreeSearch.

(** X9: after the search of one namespace by [performSearch], the entries
    the tree holds for the namespace are known, and every one of them whose
    key fuzzy-matches the search term is among the matching keys recorded
    for the namespace; when no set was recorded before, the recorded set
    holds keys of those entries only; the count of matches never
    decreases. *)
Theorem searchNamespace_records_key_matches `{NodeRuntime}
    (worker : WorkerProject) (ns : string * string) (totalMatches : nat)
    (d : Disk) (x : Extension) :
  cache_ok (kvDataProvider x) →
  ∃ r x' tr es,
    searchNamespace worker ns totalMatches d x = (Returned r, x', tr)
    ∧ cache_ok (kvDataProvider x')
    ∧ kvEntries (treeProvider x') !! cacheKeyOf worker ns.2 = Some es
    ∧ (∀ cached, kvEntries (treeProvider x) !! cacheKeyOf worker ns.2 = Some cached →
                 es = cached)
    ∧ (∀ e, e ∈ es →
         fuzzyMatch (toLowerCase (key e)) (searchTerm (treeProvider x)) = true →
         ∃ ks, searchResults (treeProvider x') !! cacheKeyOf worker ns.2 = Some ks
               ∧ key e ∈ ks)
    ∧ (∀ ks, searchResults (treeProvider x) !! cacheKeyOf worker ns.2 = None →
             searchResults (treeProvider x') !! cacheKeyOf worker ns.2 = Some ks →
             ∀ k, k ∈ ks → k ∈ key <$> es)
    ∧ (totalMatches ≤ r ≤ totalMatches + List.length es)%nat.
Proof.
  intros Hok.
  assert (Hbody : ∃ r1 x1 tr1 es,
    try_catch
      (this <- tree_fields ;;
       entries <-
         match kvEntries this !! cacheKeyOf worker ns.2 with
         | Some entries => ret entries
         | None =>
             data <- on_data (getKVData (path worker) ns.2) ;;
             update_tree (λ t, set_kvEntries
                                 (<[cacheKeyOf worker ns.2 := entries data]> (kvEntries t)) t) ;;
             ret (entries data)
         end ;;
       searchEntries worker ns.2 entries ∅ totalMatches)
      (λ _, console_error (ErrorSearchingNamespace ns.2) ;; ret (∅, totalMatches)) d x
    = (Returned r1, x1, tr1)
    ∧ cache_ok (kvDataProvider x1)
    ∧ kvEntries (treeProvider x1) !! cacheKeyOf worker ns.2 = Some es
    ∧ (∀ cached, kvEntries (treeProvider x) !! cacheKeyOf worker ns.2 = Some cached →
                 es = cached)
    ∧ searchResults (treeProvider x1) = searchResults (treeProvider x)
    ∧ (∀ e, e ∈ es →
         fuzzyMatch (toLowerCase (key e)) (searchTerm (treeProvider x)) = true →
         key e ∈ r1.1)
    ∧ (∀ k, k ∈ r1.1 → k ∈ key <$> es)
    ∧ (totalMatches ≤ r1.2 ≤ totalMatches + List.length es)%nat).
  { unfold try_catch, bind at 1, tree_fields, bind at 1, get_fields, ret. simpl.
    destruct (kvEntries (treeProvider x) !! cacheKeyOf worker ns.2) as [es|] eqn:Hes.
    - unfold bind. simpl.
      destruct (searchEntries_keys worker ns.2 es ∅ totalMatches d x Hok)
        as (r & x' & tr & Hrun & Hok' & Htree & _ & Hall & Hsound & Hcount).
      rewrite Hrun. exists r, x', ([] ++ tr), es. split; [reflexivity|].
      rewrite Htree. repeat split; auto; try lia.
      + by intros cached [= ->].
      + intros k Hk. destruct (Hsound k Hk) as [Hin|Hin]; [set_solver | done].
    - destruct (getKVData_run (path worker) ns.2 d (kvDataProvider x) Hok)
        as (data & p & tr0 & Hget & _ & Hokp & Hev).
      unfold bind at 1, bind at 1, bind at 1.
      rewrite (on_data_run _ _ _ _ _ _ Hget).
      rewrite update_tree_run. simpl.
      set (x2 := {| treeProvider := _; kvDataProvider := p |}).
      destruct (searchEntries_keys worker ns.2 (entries data) ∅ totalMatches d x2 Hokp)
        as (r & x' & tr & Hrun & Hok' & Htree & _ & Hall & Hsound & Hcount).
      rewrite Hrun. eexists r, x', _, (entries data). split; [reflexivity|].
      rewrite Htree. simpl. repeat split; auto; try lia.
      + apply lookup_insert_eq.
      + done.
      + intros k Hk. destruct (Hsound k Hk) as [Hin|Hin]; [set_solver | done]. }
  destruct Hbody
    as (r1 & x1 & tr1 & es & Hrun & Hok1 & Hes & Hcached & Hres & Hall & Hsound & Hcount).
  unfold searchNamespace, bind at 1. rewrite Hrun.
  destruct (0 <? size r1.1)%nat eqn:Hsize.
  - unfold bind at 1. rewrite update_tree_run. unfold ret.
    eexists _, _, _, es. split; [reflexivity|]. simpl.
    split; [done|]. split; [done|]. split; [done|]. split.
    + intros e He Hm. exists r1.1. split; [apply lookup_insert_eq | by apply Hall].
    + split; [|lia]. intros ks _. rewrite lookup_insert_eq. intros [= <-]. done.
  - unfold bind, ret. eexists _, _, _, es. split; [reflexivity|]. simpl.
    split; [done|]. split; [done|]. split; [done|]. split.
    + intros e He Hm. exfalso. apply Nat.ltb_ge in Hsize.
      pose proof (Hall e He Hm) as Hin.
      assert (size r1.1 ≠ 0%nat); [|lia].
      apply size_non_empty_iff. set_solver.
    + split; [|lia]. intros ks Hnone. rewrite Hres, Hnone. done.
Qed.

Lemma searchNamespace_records_key_matches_witness :
  ∃ r x' tr ks,
    @searchNamespace simple_runtime cache_worker ("CACHE", "N1") 0 disk_ready new_extension
    = (Returned r, x', tr)
    ∧ searchResults (treeProvider x') !! "/p:N1" = Some ks.
Proof.
  destruct (@searchNamespace_records_key_matches simple_runtime cache_worker
              ("CACHE", "N1") 0 disk_ready new_extension (map_Forall_empty _))
    as (r & x' & tr & es & Hrun & _ & Hes & _ & Hall & _).
  assert (Hentries :
    kvEntries (treeProvider
      (@searchNamespace simple_runtime cache_worker ("CACHE", "N1") 0 disk_ready
         new_extension).1.2) !! "/p:N1"
    = Some es) by (rewrite Hrun; exact Hes).
  vm_compute in Hentries. injection Hentries as <-.
  destruct (Hall (entry "a" "blob-a")) as (ks & Hks & _).
  - apply elem_of_cons. by left.
  - reflexivity.
  - exists r, x', tr, ks. split; [exact Hrun | exact Hks].
Defined.

(** ** The document provider *)

Section DocumentProofs.
Context `{NodeRuntime} `{UriRuntime}.
Implicit Types (d : Disk) (x : Documents) (uri : Uri).

(** A call whose URI names a worker, a namespace and a key, and whose text
    is not cached, asks the data provider for the value and shows it. *)
Lemma provideTextDocumentContent_fetch uri workerPath namespaceId rest k d x :
  cache_ok (documentData x) →
  decodeURIComponent (authority uri) = Some workerPath →
  pathPartsOf uri = namespaceId :: rest →
  rest ≠ [] →
  decodeURIComponent (String.concat "/" rest) = Some k →
  contentCache (documentProvider x) !! uri_toString uri = None →
  ∃ v p tr,
    getValue workerPath namespaceId k d (documentData x)
    = (Returned v, p, CallGetValue workerPath namespaceId k :: tr)
    ∧ cache_ok p
    ∧ provideTextDocumentContent uri d x
      = (DocReturned (documentText v),
         {| documentProvider :=
              {| contentCache :=
                   if documentKept v
                   then <[uri_toString uri := documentText v]>
                          (contentCache (documentProvider x))
                   else contentCache (documentProvider x) |};
            documentData := p |},
         DataEvent <$> (CallGetValue workerPath namespaceId k :: tr)).
Proof.
  intros Hok Hauth Hparts Hrest Hkey Hmiss.
  destruct (getValue_run workerPath namespaceId k d (documentData x) Hok)
    as (v & p & tr & Hget & Hokp & _).
  exists v, p, tr. split; [done|]. split; [done|].
  unfold provideTextDocumentContent. fold (pathPartsOf uri). rewrite Hparts.
  unfold dbind at 1, decode. rewrite Hauth. unfold dret at 1.
  destruct rest as [|k1 rest]; [done|]. simpl in Hkey |- *.
  unfold dbind at 1. rewrite Hkey. unfold dret at 1.
  unfold dbind at 1, dget. rewrite Hmiss.
  unfold dtry, dbind at 1, data_call. rewrite Hget.
  unfold documentText, documentKept.
  destruct v as [c|]; [destruct (Js.truthy c)|];
    unfold dbind, dget, dset, dret, set_contentCache; simpl;
    rewrite ?app_nil_r; try done; by destruct x as [[?] ?].
Qed.


Lemma split_on_no_sep (sep : ascii) (s : string) :
  sep ∉ chars s → split_on sep s = [s].
Proof.
  induction s as [|c s IH]; intros Hnot; simpl; [done|].
  destruct (Ascii.eqb_spec c sep) as [->|Hne].
  - exfalso. apply Hnot. by left.
  - rewrite IH; [done|]. intros Hin. apply Hnot. by right.
Qed.

Lemma split_on_append_sep (sep : ascii) (s1 s2 : string) :
  sep ∉ chars s1 →
  split_on sep (s1 +:+ String sep s2) = s1 :: split_on sep s2.
Proof.
  induction s1 as [|c s1 IH]; intros Hnot.
  - change ("" +:+ String sep s2) with (String sep s2). simpl.
    by rewrite Ascii.eqb_refl.
  - change (String c s1 +:+ String sep s2) with (String c (s1 +:+ String sep s2)).
    simpl. destruct (Ascii.eqb_spec c sep) as [->|Hne].
    + exfalso. apply Hnot. by left.
    + rewrite IH; [done|]. intros Hin. apply Hnot. by right.
Qed.

Lemma truthy_non_empty (s : string) : s ≠ "" → Js.truthy s = true.
Proof. intros Hs. unfold Js.truthy. by destruct (String.eqb_spec s ""). Qed.

(** The path segments of the URI that [createKVUri] builds. *)
Lemma createKVUri_pathParts workerPath namespaceId k :
  namespaceId ≠ "" →
  "/"%char ∉ chars namespaceId →
  "/"%char ∉ chars (encodeURIComponent k) →
  pathPartsOf (createKVUri workerPath namespaceId k)
  = namespaceId :: (if Js.truthy (encodeURIComponent k)
                    then [encodeURIComponent k] else []).
Proof.
  intros Hns Hslash Hkey. unfold pathPartsOf, createKVUri. cbn [uri_path].
  change ("/" +:+ namespaceId +:+ "/" +:+ encodeURIComponent k)
    with (String "/" (namespaceId +:+ String "/" (encodeURIComponent k))).
  change (split_on "/" (String "/" ?r)) with ("" :: split_on "/" r).
  rewrite split_on_append_sep, split_on_no_sep by done.
  cbn [List.filter]. change (Js.truthy "") with false. cbn iota.
  by rewrite (truthy_non_empty namespaceId).
Qed.

End DocumentProofs.



(** X11: [refresh] of the document provider drops the cached text of the
    URI, keeps the others and fires the change event; the next call for the
    URI asks the data provider for the value again. *)
Theorem refresh_forces_fetch `{NodeRuntime} `{UriRuntime}
    (uri : Uri) (workerPath namespaceId k : string) (rest : list string)
    (d : Disk) (x : Documents) :
  cache_ok (documentData x) →
  decodeURIComponent (authority uri) = Some workerPath →
  pathPartsOf uri = namespaceId :: rest →
  rest ≠ [] →
  decodeURIComponent (String.concat "/" rest) = Some k →
  ∃ x1,
    refreshDocument uri d x = (DocReturned tt, x1, [DidChange uri])
    ∧ contentCache (documentProvider x1)
      = delete (uri_toString uri) (contentCache (documentProvider x))
    ∧ documentData x1 = documentData x
    ∧ ∃ text x2 tr,
        provideTextDocumentContent uri d x1
        = (DocReturned text, x2,
           DataEvent (CallGetValue workerPath namespaceId k) :: tr).
Proof.
  intros Hok Hauth Hparts Hrest Hkey.
  eexists. split; [reflexivity|]. simpl. split; [done|]. split; [done|].
  match goal with
  | |- context [provideTextDocumentContent uri _ ?x1] =>
      destruct (provideTextDocumentContent_fetch uri workerPath namespaceId rest k d x1)
        as (v & p & tr & _ & _ & Hfetch); try done
  end.
  - simpl. apply lookup_delete_eq.
  - rewrite Hfetch. by eexists _, _, _.
Qed.

Lemma refresh_forces_fetch_witness :
  ∃ x1 text x2 tr,
    @refreshDocument simple_uri_runtime (@createKVUri simple_uri_runtime "/p" "N1" "b")
      disk_ready new_documents
    = (DocReturned tt, x1, [DidChange (@createKVUri simple_uri_runtime "/p" "N1" "b")])
    ∧ @provideTextDocumentContent simple_runtime simple_uri_runtime
        (@createKVUri simple_uri_runtime "/p" "N1" "b") disk_ready x1
      = (DocReturned text, x2, DataEvent (CallGetValue "/p" "N1" "b") :: tr).
Proof.
  destruct (@refresh_forces_fetch simple_runtime simple_uri_runtime
              (@createKVUri simple_uri_runtime "/p" "N1" "b") "/p" "N1" "b" ["b"]
              disk_ready new_documents)
    as (x1 & Hrefresh & _ & _ & text & x2 & tr & Hrun).
  - apply map_Forall_empty.
  - reflexivity.
  - reflexivity.
  - discriminate.
  - reflexivity.
  - exists x1, text, x2, tr. split; [exact Hrefresh | exact Hrun].
Defined.

(** X12: the URI that [createKVUri] builds for a worker path, a namespace
    id and a key leads the document provider back to them: when the two
    encoded components decode to what was encoded, the namespace id is not
    empty and neither it nor the encoded key holds a slash, an uncached call
    asks the data provider for the value of that key in that namespace of
    that worker; with a key whose encoding is empty the URI is reported
    invalid and the data provider is not asked. *)
Theorem createKVUri_round_trip `{NodeRuntime} `{UriRuntime}
    (workerPath namespaceId k : string) (d : Disk) (x : Documents) :
  cache_ok (documentData x) →
  decodeURIComponent (encodeURIComponent workerPath) = Some workerPath →
  decodeURIComponent (encodeURIComponent k) = Some k →
  namespaceId ≠ "" →
  "/"%char ∉ chars namespaceId →
  "/"%char ∉ chars (encodeURIComponent k) →
  contentCache (documentProvider x)
    !! uri_toString (createKVUri workerPath namespaceId k) = None →
  (encodeURIComponent k ≠ "" →
   ∃ text x' tr,
     provideTextDocumentContent (createKVUri workerPath namespaceId k) d x
     = (DocReturned text, x', DataEvent (CallGetValue workerPath namespaceId k) :: tr))
  ∧ (encodeURIComponent k = "" →
     provideTextDocumentContent (createKVUri workerPath namespaceId k) d x
     = (DocReturned "// Invalid KV URI", x, [])).
Proof.
  intros Hok Hwp Hk Hns Hslash Hkslash Hmiss.
  pose proof (createKVUri_pathParts workerPath namespaceId k Hns Hslash Hkslash) as Hparts.
  split.
  - intros Hne. rewrite (truthy_non_empty _ Hne) in Hparts.
    destruct (provideTextDocumentContent_fetch (createKVUri workerPath namespaceId k)
                workerPath namespaceId [encodeURIComponent k] k d x)
      as (v & p & tr & _ & _ & Hfetch); try done.
    rewrite Hfetch. by eexists _, _, _.
  - intros Hempty. rewrite Hempty in Hparts. simpl in Hparts.
    unfold provideTextDocumentContent. fold (pathPartsOf (createKVUri workerPath namespaceId k)).
    rewrite Hparts. unfold dbind, decode. simpl. rewrite Hwp. done.
Qed.

Lemma createKVUri_round_trip_witness :
  uri_path (@createKVUri simple_uri_runtime "/p" "N1" "user:42") = "/N1/user%3A42"
  ∧ authority (@createKVUri simple_uri_runtime "/p" "N1" "user:42") = "%2Fp"
  ∧ ∃ text x' tr,
      @provideTextDocumentContent simple_runtime simple_uri_runtime
        (@createKVUri simple_uri_runtime "/p" "N1" "user:42") disk_ready new_documents
      = (DocReturned text, x', DataEvent (CallGetValue "/p" "N1" "user:42") :: tr).
Proof.
  split; [reflexivity|]. split; [reflexivity|].
  refine (proj1 (@createKVUri_round_trip simple_runtime simple_uri_runtime
                   "/p" "N1" "user:42" disk_ready new_documents _ _ _ _ _ _ _) _).
  - apply map_Forall_empty.
  - reflexivity.
  - reflexivity.
  - discriminate.
  - refine (bool_decide_unpack _ _). vm_compute. exact I.
  - refine (bool_decide_unpack _ _). vm_compute. exact I.
  - apply lookup_empty.
  - discriminate.
Defined.

(** ** The namespaces of a configuration *)

Lemma exists_binding (b : string) (kvNamespaces : list (string * string)) :
  existsb (λ existing, String.eqb (fst existing) b) kvNamespaces = true
  ↔ b ∈ fst <$> kvNamespaces.
Proof.
  rewrite existsb_exists, list_elem_of_fmap. split.
  - intros ([b' i] & Hin & Heq). apply String.eqb_eq in Heq. simpl in Heq. subst b'.
    exists (b, i). split; [done|]. by apply list_elem_of_In.
  - intros ([b' i] & -> & Hin). exists (b', i). split; [by apply list_elem_of_In|].
    apply String.eqb_refl.
Qed.

Lemma namespaceOf_non_empty (ns : NamespaceTable) (b i : string) :
  namespaceOf ns = Some (b, i) → b ≠ "" ∧ i ≠ "".
Proof.
  unfold namespaceOf. destruct (ns_binding ns) as [b'|], (ns_id ns) as [i'|]; try done.
  destruct (Js.truthy b') eqn:Hb, (Js.truthy i') eqn:Hi; simpl; try done.
  intros [= -> ->]. unfold Js.truthy in Hb, Hi.
  split; intros ->; done.
Qed.

Lemma collectNamespaces_spec (nss : list NamespaceTable) (acc : list (string * string)) :
  collectNamespaces nss acc = acc ++ omap namespaceOf nss.
Proof.
  revert acc. induction nss as [|ns rest IH]; intros acc; simpl.
  - by rewrite app_nil_r.
  - rewrite IH. destruct (namespaceOf ns) as [[b i]|]; [|done].
    by rewrite <- app_assoc.
Qed.

Lemma collectEnvNamespaces_spec (envName : string) (nss : list NamespaceTable)
    (acc : list (string * string)) :
  ∃ added,
    collectEnvNamespaces envName nss acc = acc ++ added
    ∧ Forall (λ p, ∃ ns b, ns ∈ nss ∧ namespaceOf ns = Some (b, p.2)
                           ∧ p.1 = b +:+ " (" +:+ envName +:+ ")"
                           ∧ b ∉ fst <$> acc) added
    ∧ (∀ ns b i, ns ∈ nss → namespaceOf ns = Some (b, i) →
                 b ∉ fst <$> (acc ++ added) →
                 (b +:+ " (" +:+ envName +:+ ")", i) ∈ added).
Proof.
  revert acc. induction nss as [|ns rest IH]; intros acc; simpl.
  - exists []. rewrite app_nil_r. split; [done|]. split; [constructor|].
    intros ns b i Hin. inv Hin.
  - destruct (namespaceOf ns) as [[b i]|] eqn:Hns.
    + destruct (existsb (λ existing, String.eqb (fst existing) b) acc) eqn:Hex.
      * destruct (IH acc) as (added & Heq & Hsound & Hcomplete).
        exists added. split; [done|]. split.
        -- eapply Forall_impl; [exact Hsound|].
           intros p (ns' & b' & Hin & Hrest). exists ns', b'. split; [by right | done].
        -- intros ns' b' i' Hin Hns' Hfresh.
           apply elem_of_cons in Hin as [->|Hin]; [|by eapply Hcomplete].
           exfalso. rewrite Hns in Hns'. injection Hns' as <- <-.
           apply Hfresh. rewrite fmap_app. apply elem_of_app. left.
           by apply exists_binding.
      * destruct (IH (acc ++ [(b +:+ " (" +:+ envName +:+ ")", i)]))
          as (added & Heq & Hsound & Hcomplete).
        exists ((b +:+ " (" +:+ envName +:+ ")", i) :: added).
        split; [by rewrite Heq, <- app_assoc|]. split.
        -- constructor.
           ++ exists ns, b. split; [by left|]. split; [done|]. split; [done|].
              intros Hin. apply exists_binding in Hin. congruence.
           ++ eapply Forall_impl; [exact Hsound|].
              intros p (ns' & b' & Hin & Hns' & Hp & Hfresh).
              exists ns', b'. split; [by right|]. split; [done|]. split; [done|].
              intros Hb. apply Hfresh. rewrite fmap_app. apply elem_of_app. by left.
        -- intros ns' b' i' Hin Hns' Hfresh.
           apply elem_of_cons in Hin as [->|Hin].
           ++ rewrite Hns in Hns'. injection Hns' as <- <-. by left.
           ++ right. eapply Hcomplete; [done..|].
              by rewrite <- app_assoc.
    + destruct (IH acc) as (added & Heq & Hsound & Hcomplete).
      exists added. split; [done|]. split.
      * eapply Forall_impl; [exact Hsound|].
        intros p (ns' & b' & Hin & Hrest). exists ns', b'. split; [by right | done].
      * intros ns' b' i' Hin Hns' Hfresh.
        apply elem_of_cons in Hin as [->|Hin]; [congruence | by eapply Hcomplete].
Qed.

Lemma collectEnvs_spec (envs : list (string * EnvTable)) (acc : list (string * string)) :
  ∃ added,
    collectEnvs envs acc = acc ++ added
    ∧ Forall (λ p, ∃ b, from_env envs p b ∧ b ∉ fst <$> acc) added
    ∧ (∀ envName env nss ns b i,
         (envName, env) ∈ envs → env_kv_namespaces env = Some nss → ns ∈ nss →
         namespaceOf ns = Some (b, i) →
         b ∉ fst <$> (acc ++ added) →
         (b +:+ " (" +:+ envName +:+ ")", i) ∈ added).
Proof.
  revert acc. induction envs as [|[envName env] rest IH]; intros acc; simpl.
  - exists []. rewrite app_nil_r. split; [done|]. split; [constructor|].
    intros ? ? ? ? ? ? Hin. inv Hin.
  - destruct (env_kv_namespaces env) as [nss|] eqn:Hnss.
    + destruct (collectEnvNamespaces_spec envName nss acc)
        as (added1 & Heq1 & Hsound1 & Hcomplete1).
      destruct (IH (acc ++ added1)) as (added2 & Heq2 & Hsound2 & Hcomplete2).
      exists (added1 ++ added2). rewrite Heq1, Heq2, <- app_assoc.
      split; [done|]. split.
      * apply Forall_app. split.
        -- eapply Forall_impl; [exact Hsound1|].
           intros p (ns & b & Hin & Hns & Hp & Hfresh). exists b. split; [|done].
           exists envName, env, nss, ns. split; [by left | done].
        -- eapply Forall_impl; [exact Hsound2|].
           intros p (b & (e & env' & nss' & ns & Hin & Hrest) & Hfresh).
           exists b. split.
           ++ exists e, env', nss', ns. split; [by right | done].
           ++ intros Hb. apply Hfresh. rewrite fmap_app. apply elem_of_app. by left.
      * intros e env' nss' ns b i Hin Hnss' Hns Hb Hfresh.
        apply elem_of_app. apply elem_of_cons in Hin as [Heq|Hin].
        -- injection Heq as -> ->. rewrite Hnss in Hnss'. injection Hnss' as <-.
           left. eapply Hcomplete1; [done..|].
           intros Hin. apply Hfresh. rewrite !fmap_app in *.
           rewrite !elem_of_app in *. tauto.
        -- right. eapply Hcomplete2; [done..|]. by rewrite <- app_assoc.
    + destruct (IH acc) as (added & Heq & Hsound & Hcomplete).
      exists added. split; [done|]. split.
      * eapply Forall_impl; [exact Hsound|].
        intros p (b & (e & env' & nss' & ns & Hin & Hrest) & Hfresh).
        exists b. split; [|done]. exists e, env', nss', ns. split; [by right | done].
      * intros e env' nss' ns b i Hin Hnss' Hns Hb Hfresh.
        apply elem_of_cons in Hin as [Hhd|Hin]; [|by eapply Hcomplete].
        injection Hhd as -> ->. congruence.
Qed.

(** X13: the KV namespaces that [parse] returns are the top-level tables
    that have a binding and an id, in their order, followed by namespaces of
    the environments; every returned binding and id is non-empty; a
    namespace of an environment carries the name of the environment after
    its binding and is returned only if its binding is not that of a
    top-level namespace, and it is returned whenever its binding is not
    among the returned bindings. *)
Theorem parsed_kv_namespaces_spec (parsed : ParsedConfig) :
  ∃ fromEnv,
    parsedKvNamespaces parsed
    = omap namespaceOf (default [] (parsed_kv_namespaces parsed)) ++ fromEnv
    ∧ Forall (λ p, p.1 ≠ "" ∧ p.2 ≠ "") (parsedKvNamespaces parsed)
    ∧ Forall (λ p, ∃ b, from_env (default [] (parsed_env parsed)) p b
                        ∧ b ∉ fst <$> omap namespaceOf
                                        (default [] (parsed_kv_namespaces parsed)))
             fromEnv
    ∧ (∀ envName env nss ns b i,
         (envName, env) ∈ default [] (parsed_env parsed) →
         env_kv_namespaces env = Some nss → ns ∈ nss →
         namespaceOf ns = Some (b, i) →
         b ∉ fst <$> parsedKvNamespaces parsed →
         (b +:+ " (" +:+ envName +:+ ")", i) ∈ fromEnv).
Proof.
  set (top := omap namespaceOf (default [] (parsed_kv_namespaces parsed))).
  assert (Htop : match parsed_kv_namespaces parsed with
                 | Some nss => collectNamespaces nss []
                 | None => []
                 end = top).
  { unfold top. destruct (parsed_kv_namespaces parsed) as [nss|]; [|done].
    apply collectNamespaces_spec. }
  assert (Htop_ok : Forall (λ p, p.1 ≠ "" ∧ p.2 ≠ "") top).
  { unfold top. apply Forall_forall. intros [b i] Hin.
    apply list_elem_of_omap in Hin as (ns & _ & Hns).
    by apply namespaceOf_non_empty in Hns. }
  unfold parsedKvNamespaces. rewrite Htop.
  destruct (parsed_env parsed) as [envs|]; simpl.
  - destruct (collectEnvs_spec envs top) as (added & Heq & Hsound & Hcomplete).
    exists added. rewrite Heq. split; [done|]. split; [|split; [done|]].
    + apply Forall_app. split; [done|].
      eapply Forall_impl; [exact Hsound|].
      intros [b' i] (b & (e & env & nss & ns & _ & _ & _ & Hns & Hp) & _).
      simpl in *. apply namespaceOf_non_empty in Hns as [Hb Hi]. split; [|done].
      rewrite Hp. destruct b; [done|]. discriminate.
    + intros e env nss ns b i Hin Hnss Hns Hb Hfresh. by eapply Hcomplete.
  - exists []. rewrite app_nil_r. split; [done|]. split; [done|].
    split; [constructor|]. intros ? ? ? ? ? ? Hin. inv Hin.
Qed.

Example parsed_kv_namespaces_sample :
  parsedKvNamespaces sample_config
  = [("CACHE", "N1"); ("SESSIONS (dev)", "N3"); ("SESSIONS (prod)", "N4")].
Proof. reflexivity. Qed.

Lemma parsed_kv_namespaces_spec_witness :
  ("CACHE (dev)", "N2") ∉ parsedKvNamespaces sample_config
  ∧ ("SESSIONS (dev)", "N3") ∈ parsedKvNamespaces sample_config.
Proof.
  split.
  - intros Hin. vm_compute in Hin.
    repeat (apply elem_of_cons in Hin as [Heq|Hin]; [discriminate Heq|]).
    by apply elem_of_nil in Hin.
  - destruct (parsed_kv_namespaces_spec sample_config)
      as (fromEnv & Heq & _ & _ & Hcomplete).
    rewrite Heq. apply elem_of_app. right.
    apply (Hcomplete "dev"
             {| env_kv_namespaces :=
                  Some [ {| ns_binding := Some "CACHE"; ns_id := Some "N2" |};
                         {| ns_binding := Some "SESSIONS"; ns_id := Some "N3" |} ] |}
             [ {| ns_binding := Some "CACHE"; ns_id := Some "N2" |};
               {| ns_binding := Some "SESSIONS"; ns_id := Some "N3" |} ]
             {| ns_binding := Some "SESSIONS"; ns_id := Some "N3" |}
             "SESSIONS" "N3").
    + by left.
    + reflexivity.
    + apply elem_of_cons. right. by left.
    + reflexivity.
    + intros Hin. vm_compute in Hin.
      repeat (apply elem_of_cons in Hin as [Hhd|Hin]; [discriminate Hhd|]).
      by apply elem_of_nil in Hin.
Defined.

(** ** More on the fuzzy match *)

Lemma chars_append (s1 s2 : string) : chars (s1 +:+ s2) = chars s1 ++ chars s2.
Proof.
  induction s1 as [|c s1 IH]; [done|].
  change (String c s1 +:+ s2) with (String c (s1 +:+ s2)). simpl. by rewrite IH.
Qed.

Lemma fuzzyMatch_sublist (text search : string) :
  fuzzyMatch text search = true ↔ chars search `sublist_of` chars text.
Proof. rewrite fuzzyMatch_consume. apply consume_sublist. Qed.

(** X14: the fuzzy match narrows as the query grows and widens as the text
    grows: a text matched by a query is matched by every part of the query,
    a query that matches a text matches the text with anything put before
    or after it, every string matches itself, a query that occurs in the
    text as a substring fuzzy-matches it, and a query longer than the text
    never matches. *)
Theorem fuzzyMatch_refinement (text q1 q2 before after : string) :
  (fuzzyMatch text (q1 +:+ q2) = true →
   fuzzyMatch text q1 = true ∧ fuzzyMatch text q2 = true)
  ∧ (fuzzyMatch text q1 = true →
     fuzzyMatch (before +:+ text +:+ after) q1 = true)
  ∧ fuzzyMatch text text = true
  ∧ (Js.includes text q1 = true → fuzzyMatch text q1 = true)
  ∧ (String.length text < String.length q1 → fuzzyMatch text q1 = false)%nat.
Proof.
  rewrite !fuzzyMatch_sublist, !chars_append.
  split.
  { intros Hsub. split.
    - etrans; [|exact Hsub]. by apply sublist_inserts_r.
    - etrans; [|exact Hsub]. by apply sublist_inserts_l. }
  split.
  { intros Hsub. by apply sublist_inserts_l, sublist_inserts_r. }
  split; [done|].
  split.
  { unfold Js.includes. destruct (String.index 0 q1 text) as [m|] eqn:Hidx; [|done].
    intros _. apply String.index_correct1 in Hidx.
    rewrite <- Hidx at 1. rewrite chars_substring.
    etrans; [apply sublist_take | apply sublist_drop]. }
  intros Hlen. destruct (fuzzyMatch text q1) eqn:Hm; [|done].
  apply fuzzyMatch_sublist, sublist_length in Hm. rewrite !chars_length in Hm. lia.
Qed.

Lemma fuzzyMatch_refinement_witness :
  fuzzyMatch "user:42:profile" "u42" = true
  ∧ fuzzyMatch "user:42:profile" "42:pro" = true
  ∧ fuzzyMatch "user:42" "user:42:profile" = false.
Proof.
  destruct (fuzzyMatch_refinement "user:42:profile" "u42" "p" "" "")
    as (Hparts & _ & _ & _ & _).
  destruct (fuzzyMatch_refinement "user:42:profile" "42:pro" "" "" "")
    as (_ & _ & _ & Hinc & _).
  destruct (fuzzyMatch_refinement "user:42" "user:42:profile" "" "" "")
    as (_ & _ & _ & _ & Hlong).
  split; [exact (proj1 (Hparts eq_refl))|].
  split; [exact (Hinc eq_refl)|].
  apply Hlong. vm_compute. lia.
Defined.

(** ** The size of the preview *)

Lemma length_append (s1 s2 : string) :
  String.length (s1 +:+ s2) = (String.length s1 + String.length s2)%nat.
Proof. by rewrite <- !chars_length, chars_append, length_app. Qed.

Lemma length_substring_le (n m : nat) (s : string) :
  (String.length (String.substring n m s) ≤ m)%nat.
Proof. rewrite <- chars_length, chars_substring, length_take. lia. Qed.

Lemma length_replace_backslash_n (s : string) :
  (String.length (Js.replace_backslash_n s) ≤ String.length s)%nat.
Proof.
  remember (String.length s) as n eqn:Hn.
  revert s Hn. induction (lt_wf n) as [n _ IH]; intros s ->.
  destruct s as [|c [|e s]]; [done..|].
  change (Js.replace_backslash_n (String c (String e s)))
    with (if (Ascii.eqb c "\" && Ascii.eqb e "n")%bool
          then String " " (Js.replace_backslash_n s)
          else String c (Js.replace_backslash_n (String e s))).
  destruct (Ascii.eqb c "\" && Ascii.eqb e "n")%bool.
  - pose proof (IH (String.length s) ltac:(simpl; lia) s eq_refl). simpl in *. lia.
  - pose proof (IH (String.length (String e s)) ltac:(simpl; lia) (String e s) eq_refl).
    simpl in *. lia.
Qed.

(** X15: the preview of a value match is short whatever the length of the
    value: at most 40 characters around the typed text and the two
    ellipses, that is, never more than the length of the typed text plus
    46. *)
Theorem valuePreview_length `{NodeRuntime} (content value : string) :
  (String.length (valuePreviewOf content value) ≤ String.length value + 46)%nat.
Proof.
  unfold valuePreviewOf.
  set (i := Js.indexOf (toLowerCase content) (toLowerCase value)).
  set (start := Z.max 0 (i - 20)).
  set (end_ := Z.min (Js.length content) (i + Js.length value + 20)).
  assert (Hbody : (String.length (Js.replace_backslash_n (Js.substring content start end_))
                   ≤ String.length value + 40)%nat).
  { etrans; [apply length_replace_backslash_n|].
    unfold Js.substring. etrans; [apply length_substring_le|].
    unfold start, end_, Js.length. lia. }
  destruct (0 <? start), (end_ <? Js.length content);
    rewrite ?length_append; simpl; lia.
Qed.

(** ** The count of matches and the recorded results *)

Section SearchCount.
Context `{NodeRuntime}.
Implicit Types (d : Disk) (x : Extension).






End SearchCount.


